(** * cf-helper: the local data engine

    A shallow embedding of the data engine of the Codeforces helper
    extension: the submission store of [db.ts] (an IndexedDB object store
    keyed by submission id), and the catalog refresh, search ranking,
    random-pick filter and CSV export of the overlay component.

    Conventions.
    - JavaScript numbers that the program handles are integers (ids, ratings,
      counts, timestamps): they are modelled as [Z]. The model is that of the
      safe integers ([Js.isSafeInteger], magnitude below 2^53), which a
      JavaScript number holds exactly: there the arithmetic is that of [Z],
      [parseInt] is exact, and a number converted to a string (template
      literal, [Array.join]) is its decimal rendering, stdpp's [pretty].
      Beyond them a JavaScript number is rounded and, from 1e21 on, printed
      with an exponent: properties that depend on the rendering or on
      [parseInt] carry the range as a hypothesis.
    - [NaN] arises from [parseInt], from a subtraction with a missing contest
      id, and from the getters of an invalid [Date]; a number that may be
      [NaN] is an [option Z] with [None] for [NaN].
    - An optional or possibly [undefined] field is an [option].
    - Strings are [string]s over one-byte characters. Case conversion and the
      regular-expression classes are those of ASCII text, which is what
      problem ids, verdicts and rating inputs consist of; a character outside
      ASCII is carried in its UTF-8 encoding (the byte-order mark, the line
      and paragraph separators), and properties that depend on case
      conversion carry the restriction to ASCII text as a hypothesis. *)

From Stdlib Require Import ZArith List String Ascii Lia.
From stdpp Require Import gmap strings pretty list sorting.

Local Open Scope Z_scope.

(** ** JavaScript primitives used by the program *)

Module Js.

(** [Number.MAX_SAFE_INTEGER] and [Number.isSafeInteger]: the integers that
    a JavaScript number holds exactly. *)
Definition MAX_SAFE_INTEGER : Z := 9007199254740991.
Definition isSafeInteger (n : Z) : bool :=
  (- MAX_SAFE_INTEGER <=? n) && (n <=? MAX_SAFE_INTEGER).

(** [String(n)] for a safe integer [n]: its decimal rendering. *)
Definition numToString (n : Z) : string := pretty n.

(** [String(v)] for a number that may be [NaN]. *)
Definition nanToString (v : option Z) : string :=
  match v with
  | Some n => numToString n
  | None => "NaN"
  end.

(** [String(v)] for a possibly [undefined] integer. *)
Definition optNumToString (v : option Z) : string :=
  match v with
  | Some n => numToString n
  | None => "undefined"
  end.

(** Truthiness of a string: only the empty string is falsy. *)
Definition strTruthy (s : string) : bool :=
  match s with
  | EmptyString => false
  | String _ _ => true
  end.

(** Truthiness of a possibly [undefined] number: [undefined] and [0] are falsy. *)
Definition optNumTruthy (v : option Z) : bool :=
  match v with
  | Some n => negb (n =? 0)
  | None => false
  end.

Definition isUpper (c : ascii) : bool :=
  let n := nat_of_ascii c in (65 <=? n)%nat && (n <=? 90)%nat.
Definition isLower (c : ascii) : bool :=
  let n := nat_of_ascii c in (97 <=? n)%nat && (n <=? 122)%nat.
Definition isDigit (c : ascii) : bool :=
  let n := nat_of_ascii c in (48 <=? n)%nat && (n <=? 57)%nat.

Definition charToLower (c : ascii) : ascii :=
  if isUpper c then ascii_of_nat (nat_of_ascii c + 32) else c.
Definition charToUpper (c : ascii) : ascii :=
  if isLower c then ascii_of_nat (nat_of_ascii c - 32) else c.

Fixpoint mapChars (f : ascii -> ascii) (s : string) : string :=
  match s with
  | EmptyString => EmptyString
  | String c s' => String (f c) (mapChars f s')
  end.

(** [s.toLowerCase()] and [s.toUpperCase()] of ASCII text: only the 26
    letters have another case there. *)
Definition toLowerCase (s : string) : string := mapChars charToLower s.
Definition toUpperCase (s : string) : string := mapChars charToUpper s.

(** [s.startsWith(t)]. *)
Fixpoint startsWith (s t : string) {struct t} : bool :=
  match t with
  | EmptyString => true
  | String b t' =>
      match s with
      | EmptyString => false
      | String a s' => if Ascii.eqb a b then startsWith s' t' else false
      end
  end.

(** [s.includes(t)]: [t] occurs somewhere in [s]. *)
Fixpoint includes (s t : string) : bool :=
  startsWith s t ||
  match s with
  | EmptyString => false
  | String _ s' => includes s' t
  end.

(** [s.replace(/c/g, r)]: every occurrence of the character [c] becomes [r]. *)
Fixpoint replaceChar (c : ascii) (r : string) (s : string) : string :=
  match s with
  | EmptyString => EmptyString
  | String a s' =>
      (if Ascii.eqb a c then r else String a EmptyString) +:+ replaceChar c r s'
  end.

(** [s.padStart(2, '0')]. *)
Definition padStart2 (s : string) : string :=
  match s with
  | EmptyString => "00"
  | String a EmptyString => String "0" (String a EmptyString)
  | _ => s
  end.

(** White space skipped by [parseInt]. *)
Definition isWhiteSpace (c : ascii) : bool :=
  let n := nat_of_ascii c in
  ((9 <=? n)%nat && (n <=? 13)%nat) || (n =? 32)%nat.

Fixpoint skipWhiteSpace (s : string) : string :=
  match s with
  | String c s' => if isWhiteSpace c then skipWhiteSpace s' else s
  | EmptyString => EmptyString
  end.

(** Value of a digit in the given radix (10 or 16). *)
Definition digitValue (radix : Z) (c : ascii) : option Z :=
  let n := Z.of_nat (nat_of_ascii c) in
  if isDigit c then Some (n - 48)
  else if (radix =? 16) && (97 <=? n) && (n <=? 102) then Some (n - 87)
  else if (radix =? 16) && (65 <=? n) && (n <=? 70) then Some (n - 55)
  else None.

(** The longest prefix of digits, read in [radix]; [None] when there is no digit. *)
Fixpoint parseDigits (radix : Z) (s : string) (acc : option Z) : option Z :=
  match s with
  | EmptyString => acc
  | String c s' =>
      match digitValue radix c with
      | Some d => parseDigits radix s' (Some (radix * default 0 acc + d))
      | None => acc
      end
  end.

(** [parseInt(s)]; [None] is [NaN]. The value is exact as long as it is a
    safe integer. *)
Definition parseInt (s : string) : option Z :=
  let s1 := skipWhiteSpace s in
  let '(sign, s2) :=
    match s1 with
    | String "-" r => (-1, r)
    | String "+" r => (1, r)
    | _ => (1, s1)
    end in
  let '(radix, s3) :=
    match s2 with
    | String "0" (String "x" r) => (16, r)
    | String "0" (String "X" r) => (16, r)
    | _ => (10, s2)
    end in
  Z.mul sign <$> parseDigits radix s3 None.

(** Comparisons of numbers that may be [NaN]: false as soon as one side is. *)
Definition numGe (a b : option Z) : bool :=
  match a, b with Some x, Some y => y <=? x | _, _ => false end.
Definition numLe (a b : option Z) : bool :=
  match a, b with Some x, Some y => x <=? y | _, _ => false end.
Definition numStrictEq (a : option Z) (b : Z) : bool :=
  match a with Some x => x =? b | None => false end.

(** [Array.prototype.sort(cmp)]: a stable sort; an element moves behind
    another only when the comparator is positive. Written as the stable
    insertion sort, which is the order every stable sort produces for a
    consistent comparator. *)
Fixpoint insertBy {A} (cmp : A -> A -> Z) (x : A) (l : list A) : list A :=
  match l with
  | [] => [x]
  | y :: l' => if cmp x y <=? 0 then x :: l else y :: insertBy cmp x l'
  end.

Fixpoint sortBy {A} (cmp : A -> A -> Z) (l : list A) : list A :=
  match l with
  | [] => []
  | x :: l' => insertBy cmp x (sortBy cmp l')
  end.

(** [parts.join(sep)]. *)
Fixpoint join (sep : string) (parts : list string) : string :=
  match parts with
  | [] => ""
  | [p] => p
  | p :: rest => p +:+ sep +:+ join sep rest
  end.

End Js.

(** ** The submission store ([db.ts]) *)

Module Db.

(** The [id] of a raw submission as it arrives from the remote source:
    missing, [null], or a number. *)
Inductive RawId : Type :=
| IdUndefined
| IdNull
| IdNum (n : Z).

(** Truthiness of [sub.id]. *)
Definition idTruthy (i : RawId) : bool :=
  match i with
  | IdNum n => negb (n =? 0)
  | _ => false
  end.

(** [sub.problem] of the remote submission. *)
Record RawProblem : Type := mkRawProblem {
  rp_contestId : option Z;
  rp_index : string;
  rp_name : string;
  rp_rating : option Z;
  rp_tags : option (list string)
}.

(** One element of the batch passed to [saveSubmissions]. The batch is
    untyped: [creationTimeSeconds] may be missing, as [id] and [problem]
    may. *)
Record RawSubmission : Type := mkRawSubmission {
  sub_id : RawId;
  sub_problem : option RawProblem;
  sub_programmingLanguage : string;
  sub_verdict : option string;
  sub_testset : string;
  sub_passedTestCount : Z;
  sub_timeConsumedMillis : Z;
  sub_memoryConsumedBytes : Z;
  sub_creationTimeSeconds : option Z;
  sub_code : option string
}.

(** The value type of the [submissions] object store. A record is stored
    with the [creationTimeSeconds] of the batch element, present or not. *)
Record Submission : Type := mkSubmission {
  id : Z;
  contestId : option Z;
  index : string;
  name : string;
  rating : option Z;
  tags : list string;
  programmingLanguage : string;
  verdict : option string;
  testset : string;
  passedTestCount : Z;
  timeConsumedMillis : Z;
  memoryConsumedBytes : Z;
  creationTimeSeconds : option Z;
  code : option string
}.

(** The object store: records keyed by [id] (the store's [keyPath]). *)
Abbreviation Store := (gmap Z Submission).

(** [store.get(key)]. *)
Definition get (store : Store) (key : Z) : option Submission := store !! key.

(** [store.put(value)]: insert or replace at [value.id]. *)
Definition put (store : Store) (value : Submission) : Store :=
  <[id value := value]> store.

(** [db.count('submissions')]. *)
Definition getSubmissionCount (store : Store) : nat := size store.

(** [db.clear('submissions')]. *)
Definition clearDB (store : Store) : Store := ∅.

(** The object literal handed to [store.put] in the loop body:
    every field comes from [sub] except [code], which is [existing?.code]. *)
Definition buildRecord (k : Z) (p : RawProblem) (sub : RawSubmission)
    (existing : option Submission) : Submission :=
  {| id := k;
     contestId := rp_contestId p;
     index := rp_index p;
     name := rp_name p;
     rating := rp_rating p;
     tags := default [] (rp_tags p);
     programmingLanguage := sub_programmingLanguage sub;
     verdict := sub_verdict sub;
     testset := sub_testset sub;
     passedTestCount := sub_passedTestCount sub;
     timeConsumedMillis := sub_timeConsumedMillis sub;
     memoryConsumedBytes := sub_memoryConsumedBytes sub;
     creationTimeSeconds := sub_creationTimeSeconds sub;
     code := existing ≫= code |}.

(** One iteration of the [for (const sub of submissions)] loop, with its
    guard [if (sub.id && sub.problem)]. *)
Definition saveOne (store : Store) (sub : RawSubmission) : Store :=
  if idTruthy (sub_id sub) && bool_decide (is_Some (sub_problem sub)) then
    match sub_id sub, sub_problem sub with
    | IdNum k, Some p =>
        let existing := get store k in
        put store (buildRecord k p sub existing)
    | _, _ => store (* excluded by the guard *)
    end
  else store.

(** [saveSubmissions]: the loop over the batch, inside one transaction. *)
Definition saveSubmissions (submissions : list RawSubmission) (store : Store) : Store :=
  fold_left saveOne submissions store.

(** [querySubmissions], given the result [all] of reading the store through
    its creation-time index. *)
Definition querySubmissions (onlyAC : bool) (all : list Submission) : list Submission :=
  if negb onlyAC then all
  else filter (λ sub, verdict sub = Some "OK") all.

(** The key of an entry of the [by-creation] index. *)
Definition creationKey (r : Submission) : Z := default 0 (creationTimeSeconds r).

(** The order of the [by-creation] index: by [creationTimeSeconds], and by
    primary key among records of the same time. *)
Definition byCreation (a b : Z * Submission) : Z :=
  if creationKey a.2 =? creationKey b.2 then a.1 - b.1
  else creationKey a.2 - creationKey b.2.

(** The records of the store as the [by-creation] index lists them. The
    index has an entry for a record only when the key path
    [creationTimeSeconds] yields a key: a record stored without creation time
    is in the store, and counted, but not in the index. *)
Definition indexByCreation (store : Store) : list Submission :=
  (Js.sortBy byCreation
     (filter (λ e, is_Some (creationTimeSeconds e.2)) (map_to_list store))).*2.

(** [getAllSubmissions]: [db.getAllFromIndex('submissions', 'by-creation')]. *)
Definition getAllSubmissions (store : Store) : list Submission :=
  indexByCreation store.

(** [getRecentSubmissions]: a cursor walks the index backwards and the loop
    stops after [limit] records. *)
Definition getRecentSubmissions (limit : nat) (store : Store) : list Submission :=
  take limit (reverse (indexByCreation store)).

End Db.

(** ** The overlay component: catalog refresh, search, random pick, export *)

Module Overlay.
Import Js.

(** [type Problem]. Problems built by the catalog refresh carry no [index]. *)
Record Problem : Type := mkProblem {
  id : string;
  name : string;
  tags : option (list string);
  rating : option Z;
  contestId : option Z;
  index : option string
}.

(** [type Folder]. *)
Record Folder : Type := mkFolder {
  folderId : string;
  title : string;
  problems : list Problem;
  isCustom : option bool
}.

Definition CF_TAGS : list string :=
  ["dp"; "greedy"; "math"; "graphs"; "data structures"; "sortings";
   "binary search"; "dfs and similar"; "trees"; "strings"; "number theory";
   "geometry"; "two pointers"; "dsu"; "bitmasks"; "constructive algorithms";
   "implementation"].

(** *** Catalog refresh: [fetchCFProblems] *)

(** One entry of [data.result.problems]. *)
Record RemoteProblem : Type := mkRemoteProblem {
  r_contestId : option Z;
  r_index : string;
  r_name : string;
  r_tags : option (list string);
  r_rating : option Z
}.

(** The decoded response body: [data.status] and [data.result.problems]
    ([None] when the body has no such array, so that reading it throws). *)
Record Payload : Type := mkPayload {
  status : string;
  result_problems : option (list RemoteProblem)
}.

(** What one [fetch] followed by [res.json()] comes to: a rejection
    (transport or parse failure) or a decoded body. *)
Inductive FetchOutcome : Type :=
| Rejects
| Responds (data : Payload).

(** The network as the program sees it: the outcomes of the requests it
    will issue, in order. Each request consumes one. *)
Abbreviation Network := (list FetchOutcome).

Definition fetch (net : Network) : FetchOutcome * Network :=
  match net with
  | [] => (Rejects, [])
  | o :: net' => (o, net')
  end.

(** The keys of [chrome.storage.local] written by the refresh. *)
Record Storage : Type := mkStorage {
  cf_all_problems_cache : option (list Problem);
  cf_cache_time : option Z;
  cf_sys_folders : option (list Folder)
}.

(** The component state read and written by the refresh. *)
Record AppState : Type := mkAppState {
  allProblemsCache : list Problem;
  systemFolders : list Folder;
  isLoading : bool;
  storage : Storage
}.

(** The mapping applied to each remote entry:
    [{ id: `${p.contestId}${p.index}`, name, tags: p.tags || [], rating, contestId }]. *)
Definition normalize (p : RemoteProblem) : Problem :=
  {| id := optNumToString (r_contestId p) +:+ r_index p;
     name := r_name p;
     tags := Some (default [] (r_tags p));
     rating := r_rating p;
     contestId := r_contestId p;
     index := None |}.

(** The comparator [(a, b) => b.contestId - a.contestId]; a [NaN] result
    (a missing contest id) counts as [0] for the sort. With a missing contest
    id the comparator is not a consistent one, and the order in which the
    host's sort leaves such a list is its own: the properties that concern
    the order of a folder are stated for snapshots in which every problem has
    a contest id. *)
Definition byContestDesc (a b : Problem) : Z :=
  match contestId b, contestId a with
  | Some y, Some x => y - x
  | _, _ => 0
  end.

(** [p.tags?.includes(tag)]. *)
Definition hasTag (tag : string) (p : Problem) : bool :=
  match tags p with
  | Some ts => bool_decide (tag ∈ ts)
  | None => false
  end.

(** The system folders derived from a snapshot. *)
Definition classify (rawProblems : list Problem) : list Folder :=
  map (λ tag,
    let pList := take 20 (sortBy byContestDesc (List.filter (hasTag tag) rawProblems)) in
    {| folderId := "sys_" +:+ tag; title := toUpperCase tag;
       problems := pList; isCustom := None |}) CF_TAGS.

(** The body of the [if (data.status === "OK")] branch. *)
Definition applySnapshot (now : Z) (remote : list RemoteProblem) (st : AppState) : AppState :=
  let rawProblems := map normalize remote in
  let newSys := classify rawProblems in
  {| allProblemsCache := rawProblems;
     systemFolders := newSys;
     isLoading := isLoading st;
     storage := {| cf_all_problems_cache := Some rawProblems;
                   cf_cache_time := Some now;
                   cf_sys_folders := Some newSys |} |}.

Definition setIsLoading (b : bool) (st : AppState) : AppState :=
  {| allProblemsCache := allProblemsCache st;
     systemFolders := systemFolders st;
     isLoading := b;
     storage := storage st |}.

(** [fetchCFProblems]: one request; the [try] block updates the state only
    for an OK body, the [catch] block only logs, and [finally] clears the
    loading flag. [now] is the value of [Date.now()]. *)
Definition fetchCFProblems (now : Z) (net : Network) (st : AppState)
    : AppState * Network :=
  let st1 := setIsLoading true st in
  let '(outcome, net') := fetch net in
  let st2 :=
    match outcome with
    | Rejects => st1
    | Responds data =>
        if String.eqb (status data) "OK" then
          match result_problems data with
          | Some remote => applySnapshot now remote st1
          | None => st1
          end
        else st1
    end in
  (setIsLoading false st2, net').

(** *** Search: [searchResults] *)

(** [minRating ? parseInt(minRating) : 0] and [maxRating ? parseInt(maxRating) : 10000]. *)
Definition resolveMin (minRating : string) : option Z :=
  if strTruthy minRating then parseInt minRating else Some 0.
Definition resolveMax (maxRating : string) : option Z :=
  if strTruthy maxRating then parseInt maxRating else Some 10000.

(** [p.tags && p.tags.some(t => t.toLowerCase().includes(lower))]. *)
Definition tagsMatch (lower : string) (p : Problem) : bool :=
  match tags p with
  | Some ts => existsb (λ t, includes (toLowerCase t) lower) ts
  | None => false
  end.

Definition textMatch (searchText : string) (p : Problem) : bool :=
  let lower := toLowerCase searchText in
  negb (strTruthy searchText) ||
  (includes (toLowerCase (id p)) lower ||
   includes (toLowerCase (name p)) lower ||
   tagsMatch lower p).

(** [p.rating ? (p.rating >= min && p.rating <= max) : (min === 0)]. *)
Definition ratingMatch (min max : option Z) (p : Problem) : bool :=
  if optNumTruthy (rating p)
  then numGe (rating p) min && numLe (rating p) max
  else numStrictEq min 0.

(** The predicate [isMatch] of [searchResults]. *)
Definition isMatch (searchText minRating maxRating : string) (p : Problem) : bool :=
  let min := resolveMin minRating in
  let max := resolveMax maxRating in
  textMatch searchText p && ratingMatch min max p.

Definition getScore (searchText : string) (p : Problem) : Z :=
  let lower := toLowerCase searchText in
  let pid := toLowerCase (id p) in
  if strTruthy searchText && String.eqb pid lower then 0
  else if strTruthy searchText && startsWith pid lower then 1
  else if strTruthy searchText && startsWith (toLowerCase (name p)) lower then 2
  else 3.

Record SearchResults : Type := mkSearchResults {
  my : list Problem;
  global : list Problem
}.

(** [myMatches.push(p)] unless [p] does not match or its id is already there. *)
Definition pushMatch (searchText minRating maxRating : string)
    (myMatches : list Problem) (p : Problem) : list Problem :=
  if isMatch searchText minRating maxRating p
     && negb (existsb (λ x, String.eqb (id x) (id p)) myMatches)
  then myMatches ++ [p]
  else myMatches.

Section Collation.
(** [a.localeCompare(b)] is the host's collation of two strings; its sign
    is all the sort uses. *)
Variable localeCompare : string -> string -> Z.

(** The comparator of [sortProblems]. *)
Definition compareProblems (searchText : string) (a b : Problem) : Z :=
  let sA := getScore searchText a in
  let sB := getScore searchText b in
  if negb (sA =? sB) then sA - sB
  else if negb (String.length (id a) =? String.length (id b))%nat
       then Z.of_nat (String.length (id a)) - Z.of_nat (String.length (id b))
  else localeCompare (id a) (id b).

Definition sortProblems (searchText : string) (items : list Problem) : list Problem :=
  sortBy (compareProblems searchText) items.

Definition searchResults (searchText minRating maxRating : string)
    (myFolders : list Folder) (allProblemsCache : list Problem) : SearchResults :=
  if negb (strTruthy searchText) && negb (strTruthy minRating)
     && negb (strTruthy maxRating)
  then {| my := []; global := [] |}
  else
    let myMatches :=
      fold_left (λ acc f,
        fold_left (pushMatch searchText minRating maxRating) (problems f) acc)
        myFolders [] in
    let globalMatches :=
      List.filter (isMatch searchText minRating maxRating) allProblemsCache in
    {| my := sortProblems searchText myMatches;
       global := take 50 (sortProblems searchText globalMatches) |}.
End Collation.

(** *** Random pick: [handleRandomPick] *)

(** What the handler ends with: one of the two alerts, or the problem drawn
    from the pool with the address navigated to (none when the id does not
    start with digits). *)
Inductive PickResult : Type :=
| IndexEmpty
| NoUnsolved
| Picked (p : Problem) (href : option string).

(** The predicate of [allProblemsCache.filter] in [handleRandomPick]. *)
Definition poolFilter (showStatus : bool) (userStatus : gmap string string)
    (searchText minRating maxRating : string) (p : Problem) : bool :=
  let lower := toLowerCase searchText in
  let min := if strTruthy minRating then parseInt minRating else Some 0 in
  let max := if strTruthy maxRating then parseInt maxRating else Some 10000 in
  let textMatch :=
    negb (strTruthy searchText) ||
    (includes (toLowerCase (id p)) lower ||
     includes (toLowerCase (name p)) lower ||
     match tags p with
     | Some ts => existsb (λ t, includes (toLowerCase t) lower) ts
     | None => false
     end) in
  let ratingMatch :=
    if optNumTruthy (rating p)
    then numGe (rating p) min && numLe (rating p) max
    else numStrictEq min 0 in
  let notSolved :=
    negb showStatus || negb (bool_decide (userStatus !! id p = Some "OK")) in
  textMatch && ratingMatch && notSolved.

(** The leading digits of a string and what follows them. *)
Fixpoint spanDigits (s : string) : string * string :=
  match s with
  | String c s' =>
      if isDigit c then let '(d, r) := spanDigits s' in (String c d, r)
      else (EmptyString, s)
  | EmptyString => (EmptyString, EmptyString)
  end.

(** The line and paragraph separators U+2028 and U+2029, in the three bytes
    of their encoding. *)
Definition lineSeparator : string :=
  String "226" (String "128" (String "168" EmptyString)).
Definition paragraphSeparator : string :=
  String "226" (String "128" (String "169" EmptyString)).

(** No line terminator occurs in [s]: the dot of a regular expression
    matches every character but LF, CR, U+2028 and U+2029. *)
Fixpoint noLineTerminator (s : string) : bool :=
  match s with
  | String c s' =>
      negb (Ascii.eqb c "010") && negb (Ascii.eqb c "013")
      && negb (startsWith s lineSeparator)
      && negb (startsWith s paragraphSeparator)
      && noLineTerminator s'
  | EmptyString => true
  end.

(** The address built from [randomProblem.id.match]: the pattern asks for
    leading digits followed by the rest of a single line. *)
Definition problemHref (pid : string) : option string :=
  let '(d, r) := spanDigits pid in
  if strTruthy d && noLineTerminator r
  then Some ("https://codeforces.com/problemset/problem/" +:+ d +:+ "/" +:+ r)
  else None.

(** [Math.floor(Math.random() * len)] for the random number [num / den]
    of the unit interval. *)
Definition randomIndex (num den : nat) (len : nat) : nat :=
  ((num * len) / den)%nat.

Definition handleRandomPick (num den : nat) (showStatus : bool)
    (userStatus : gmap string string) (searchText minRating maxRating : string)
    (allProblemsCache : list Problem) : PickResult :=
  if (length allProblemsCache =? 0)%nat then IndexEmpty
  else
    let pool :=
      List.filter (poolFilter showStatus userStatus searchText minRating maxRating)
        allProblemsCache in
    if (length pool =? 0)%nat then NoUnsolved
    else
      match pool !! randomIndex num den (length pool) with
      | Some randomProblem => Picked randomProblem (problemHref (id randomProblem))
      | None => NoUnsolved (* not reached: the index is below the length *)
      end.

(** *** Export: [handleExportHistory] and its formatters *)

(** The calendar fields of a valid [Date] read in the host's time zone. *)
Record DateFields : Type := mkDateFields {
  getFullYear : Z;
  getMonth : Z;
  getDate : Z;
  getHours : Z;
  getMinutes : Z;
  getSeconds : Z
}.

Definition MILLISECONDS_TO_SECONDS : Z := 1000.

Definition dquote : ascii := "034".
Definition quoted (s : string) : string :=
  String dquote s +:+ String dquote EmptyString.

(** The [replace] applied to the problem name: every double-quote character
    becomes two of them. *)
Definition doubleQuotes (s : string) : string :=
  replaceChar dquote (String dquote (String dquote EmptyString)) s.

(** [\w] of the regular expressions. *)
Definition isWordChar (c : ascii) : bool :=
  isUpper c || isLower c || isDigit c || Ascii.eqb c "_".

(** [s.replace(/\b\w/g, c => c.toUpperCase())]: a word character is
    upper-cased when no word character precedes it. *)
Fixpoint capitalizeWords (prevIsWord : bool) (s : string) : string :=
  match s with
  | EmptyString => EmptyString
  | String c s' =>
      String (if isWordChar c && negb prevIsWord then charToUpper c else c)
             (capitalizeWords (isWordChar c) s')
  end.

(** [verdict.replace(/_/g, ' ').toLowerCase().replace(/\b\w/g, ...)]. *)
Definition humanize (verdict : string) : string :=
  capitalizeWords false (toLowerCase (replaceChar "_" " " verdict)).

Definition formatVerdictDetailed (verdict : option string) (passedCount : Z) : string :=
  match verdict with
  | None => ""
  | Some v =>
      if negb (strTruthy v) then ""
      else if String.eqb v "OK" then "Accepted"
      else if String.eqb v "COMPILATION_ERROR" then "Compilation Error"
      else
        let text := humanize v in
        if bool_decide (text ∈ ["Wrong Answer"; "Time Limit Exceeded";
                                "Memory Limit Exceeded"; "Runtime Error"])
        then text +:+ " on test " +:+ numToString (passedCount + 1)
        else text
  end.

(** [Math.max(0, Math.round(bytes / 1024))]; [Math.round] rounds a half up. *)
Definition formatMemoryKB (bytes : Z) : Z :=
  Z.max 0 ((bytes + 512) / 1024).

(** An element of [values] as [join] renders it: [undefined] gives the
    empty string. *)
Definition cellOfOptNum (v : option Z) : string :=
  match v with
  | Some n => numToString n
  | None => ""
  end.

Definition headers : list string :=
  ["Submission ID"; "Contest"; "Index"; "Problem Name"; "Rating"; "Verdict";
   "Language"; "Time (ms)"; "Memory (KB)"; "Date Time"].

(** The byte-order mark U+FEFF, as encoded in the downloaded file. *)
Definition bom : string := String "239" (String "187" (String "191" EmptyString)).

Definition newline : string := String "010" EmptyString.

Inductive ExportFormat : Type := csv | json.

(** What the handler ends with: the alert, or a download. The JSON text is
    [JSON.stringify] of the listed records. *)
Inductive ExportResult : Type :=
| NoData
| DownloadJson (data : list Db.Submission) (fileName : string)
| DownloadCsv (csvContent : string) (fileName : string).

Section Calendar.
(** [new Date(ms)] read through the local-time getters: the host's calendar
    for a time value within the range of [Date], [None] for a time value
    outside it, which gives an invalid date. *)
Variable localDate : Z -> option DateFields.

(** [new Date(ms)] for a number that may be [NaN]; [NaN] gives an invalid
    date. *)
Definition newDate (ms : option Z) : option DateFields := ms ≫= localDate.

(** A getter of a date that may be invalid: every getter of an invalid date
    returns [NaN]. *)
Definition getter (field : DateFields -> Z) (d : option DateFields) : option Z :=
  field <$> d.

Definition pad (n : option Z) : string := padStart2 (nanToString n).

(** [unix] is [row.creationTimeSeconds], which may be [undefined]. *)
Definition formatFullDate (unix : option Z) : string :=
  let d := newDate ((λ u, u * MILLISECONDS_TO_SECONDS) <$> unix) in
  nanToString (getter getFullYear d) +:+ "-" +:+
  pad ((λ m, m + 1) <$> getter getMonth d) +:+ "-" +:+
  pad (getter getDate d) +:+ " " +:+ pad (getter getHours d) +:+ ":" +:+
  pad (getter getMinutes d) +:+ ":" +:+ pad (getter getSeconds d).

(** The array [values] of one row, each element as [join] renders it. *)
Definition csvValues (row : Db.Submission) : list string :=
  let dateTime := formatFullDate (Db.creationTimeSeconds row) in
  let verdict := formatVerdictDetailed (Db.verdict row) (Db.passedTestCount row) in
  let memoryKB := formatMemoryKB (Db.memoryConsumedBytes row) in
  [ numToString (Db.id row); cellOfOptNum (Db.contestId row); Db.index row;
    quoted (doubleQuotes (Db.name row));
    (if optNumTruthy (Db.rating row) then cellOfOptNum (Db.rating row) else "");
    quoted verdict; quoted (Db.programmingLanguage row);
    numToString (Db.timeConsumedMillis row); numToString memoryKB;
    quoted dateTime ].

Definition csvRow (row : Db.Submission) : string := join "," (csvValues row).

(** [bom + csvRows.join("\n")] for the rows of [data] (already reversed). *)
Definition csvContent (data : list Db.Submission) : string :=
  bom +:+ join newline (join "," headers :: map csvRow data).

Definition handleExportHistory (dbCount : nat) (exportFormat : ExportFormat)
    (exportOnlyAC : bool) (userHandle : string) (all : list Db.Submission)
    : ExportResult :=
  if (dbCount =? 0)%nat then NoData
  else
    let data := rev (Db.querySubmissions exportOnlyAC all) in
    match exportFormat with
    | json => DownloadJson data ("cf_submissions_" +:+ userHandle +:+ ".json")
    | csv => DownloadCsv (csvContent data) ("cf_submissions_" +:+ userHandle +:+ ".csv")
    end.
End Calendar.

(** *** Solve status: [fetchUserStatus] *)

(** The decoded body of a [user.status] response: [data.status],
    [data.result] ([None] when the body has no such array) and
    [data.comment]. *)
Record StatusPayload : Type := mkStatusPayload {
  sp_status : string;
  sp_result : option (list Db.RawSubmission);
  sp_comment : string
}.

Inductive StatusOutcome : Type :=
| StatusRejects
| StatusResponds (data : StatusPayload).

Definition fetchStatus (net : list StatusOutcome) : StatusOutcome * list StatusOutcome :=
  match net with
  | [] => (StatusRejects, [])
  | o :: net' => (o, net')
  end.

(** The body of [data.result.forEach]: [None] when reading [sub.problem]
    throws. A key of [newStatus] is falsy exactly when it is not set. *)
Definition recordSubmission (newStatus : gmap string string) (sub : Db.RawSubmission)
    : option (gmap string string) :=
  match Db.sub_problem sub with
  | None => None
  | Some p =>
      let pid := optNumToString (Db.rp_contestId p) +:+ Db.rp_index p in
      if bool_decide (Db.sub_verdict sub = Some "OK")
      then Some (<[pid := "OK"]> newStatus)
      else if bool_decide (is_Some (newStatus !! pid)) then Some newStatus
      else Some (<[pid := "WRONG"]> newStatus)
  end.

Fixpoint recordSubmissions (subs : list Db.RawSubmission)
    (newStatus : gmap string string) : option (gmap string string) :=
  match subs with
  | [] => Some newStatus
  | sub :: rest =>
      match recordSubmission newStatus sub with
      | Some m => recordSubmissions rest m
      | None => None
      end
  end.

(** The status map in the component state and its persisted copy
    ([cf_user_status]). *)
Record StatusState : Type := mkStatusState {
  userStatusMap : gmap string string;
  cf_user_status : option (gmap string string)
}.

(** [fetchUserStatus]: the new state, the alert shown (if any) and the
    remaining network outcomes. *)
Definition fetchUserStatus (handle : string) (alertResult : bool)
    (net : list StatusOutcome) (st : StatusState)
    : StatusState * option string * list StatusOutcome :=
  if negb (strTruthy handle) then (st, None, net)
  else
    let '(outcome, net') := fetchStatus net in
    let caught := (st, if alertResult then Some "Network error." else None, net') in
    match outcome with
    | StatusRejects => caught
    | StatusResponds data =>
        if String.eqb (sp_status data) "OK" then
          match sp_result data with
          | None => caught
          | Some subs =>
              match recordSubmissions subs ∅ with
              | None => caught
              | Some newStatus =>
                  ({| userStatusMap := newStatus; cf_user_status := Some newStatus |},
                   if alertResult then Some "Status synced successfully!" else None,
                   net')
              end
          end
        else (st, if alertResult then Some ("Failed: " +:+ sp_comment data) else None, net')
    end.

(** *** Data view: [handleSyncData], [refreshDbCount], [handleClearDb] *)

(** The submission store together with what the data view shows of it. *)
Record DataState : Type := mkDataState {
  submissions : gmap Z Db.Submission;
  dbCount : nat;
  localPreview : list Db.Submission;
  syncStatus : string
}.

Definition setSyncStatus (s : string) (st : DataState) : DataState :=
  {| submissions := submissions st; dbCount := dbCount st;
     localPreview := localPreview st; syncStatus := s |}.

(** [refreshDbCount]: the count and the 50 most recent records are read
    from the store. *)
Definition refreshDbCount (st : DataState) : DataState :=
  {| submissions := submissions st;
     dbCount := Db.getSubmissionCount (submissions st);
     localPreview := Db.getRecentSubmissions 50 (submissions st);
     syncStatus := syncStatus st |}.

(** [handleSyncData]: the new state, the alert shown (if any) and the
    remaining network outcomes. *)
Definition handleSyncData (userHandle : string) (net : list StatusOutcome)
    (st : DataState) : DataState * option string * list StatusOutcome :=
  if negb (strTruthy userHandle) then (st, Some "Please set Handle first.", net)
  else
    let '(outcome, net') := fetchStatus net in
    match outcome with
    | StatusRejects => (setSyncStatus "Network Error" st, None, net')
    | StatusResponds data =>
        if String.eqb (sp_status data) "OK" then
          match sp_result data with
          | None => (setSyncStatus "Network Error" st, None, net')
          | Some subs =>
              let saved :=
                {| submissions := Db.saveSubmissions subs (submissions st);
                   dbCount := dbCount st; localPreview := localPreview st;
                   syncStatus := "Done!" |} in
              (refreshDbCount saved, None, net')
          end
        else (setSyncStatus ("Error: " +:+ sp_comment data) st, None, net')
    end.

(** [handleClearDb], given the answer to the confirmation dialog. *)
Definition handleClearDb (confirmed : bool) (st : DataState) : DataState :=
  if confirmed then
    setSyncStatus ""
      (refreshDbCount
         {| submissions := Db.clearDB (submissions st); dbCount := dbCount st;
            localPreview := localPreview st; syncStatus := syncStatus st |})
  else st.

(** *** Custom folders *)

(** [list.findIndex(f)]; [None] stands for [-1]. *)
Fixpoint findIndex {A} (f : A -> bool) (l : list A) : option nat :=
  match l with
  | [] => None
  | x :: l' => if f x then Some 0%nat else S <$> findIndex f l'
  end.

(** The folder after [folder.problems.push(problem)]. *)
Definition pushProblem (problem : Problem) (f : Folder) : Folder :=
  {| folderId := folderId f; title := title f;
     problems := problems f ++ [problem]; isCustom := isCustom f |}.

(** [addProblemToFolder], for the problem of the context menu: the new
    folders and the alert shown (if any). *)
Definition addProblemToFolder (problem : option Problem) (fid : string)
    (myFolders : list Folder) : list Folder * option string :=
  match problem with
  | None => (myFolders, None)
  | Some pr =>
      match findIndex (λ f, String.eqb (folderId f) fid) myFolders with
      | None => (myFolders, None)
      | Some idx =>
          match myFolders !! idx with
          | None => (myFolders, None)
          | Some f =>
              if existsb (λ p, String.eqb (id p) (id pr)) (problems f)
              then (myFolders, Some "Problem already in folder.")
              else (<[idx := pushProblem pr f]> myFolders, None)
          end
      end
  end.

(** [deleteProblem]. *)
Definition deleteProblem (fid problemId : string) (myFolders : list Folder)
    : list Folder :=
  match findIndex (λ f, String.eqb (folderId f) fid) myFolders with
  | None => myFolders
  | Some folderIdx =>
      match myFolders !! folderIdx with
      | None => myFolders
      | Some f =>
          <[folderIdx :=
              {| folderId := folderId f; title := title f;
                 problems :=
                   List.filter (λ p, negb (String.eqb (id p) problemId)) (problems f);
                 isCustom := isCustom f |}]> myFolders
      end
  end.

(** [createFolder], given the answer [n] to the prompt ([None] when it is
    dismissed) and the value [now] of [Date.now()]. *)
Definition createFolder (n : option string) (now : Z) (myFolders : list Folder)
    : list Folder :=
  match n with
  | Some name =>
      if strTruthy name
      then myFolders ++ [ {| folderId := "f_" +:+ numToString now; title := name;
                             problems := []; isCustom := Some true |} ]
      else myFolders
  | None => myFolders
  end.

(** [deleteFolder], given the answer to the confirmation dialog. *)
Definition deleteFolder (confirmed : bool) (fid : string) (myFolders : list Folder)
    : list Folder :=
  if confirmed
  then List.filter (λ f, negb (String.eqb (folderId f) fid)) myFolders
  else myFolders.

(** [toggleFolder]: the new list of expanded folder ids. *)
Definition toggleFolder (fid : string) (prev : list string) : list string :=
  if bool_decide (fid ∈ prev)
  then List.filter (λ i, negb (String.eqb i fid)) prev
  else prev ++ [fid].

(** *** Contest schedule: [fetchContests] *)

(** [type Contest]. *)
Record Contest : Type := mkContest {
  contest_id : Z;
  contest_name : string;
  phase : string;
  startTimeSeconds : Z;
  durationSeconds : Z;
  participated : option bool
}.

(** One entry of the [contest.list] result. *)
Record RemoteContest : Type := mkRemoteContest {
  rc_id : Z;
  rc_name : string;
  rc_phase : string;
  rc_startTimeSeconds : Z;
  rc_durationSeconds : Z
}.

(** A decoded response body: its [status] and its [result] array ([None] when
    the body has none, so that reading it throws). *)
Record Body (A : Type) : Type := mkBody {
  body_status : string;
  body_result : option (list A)
}.
Arguments mkBody {A} _ _.
Arguments body_status {A} _.
Arguments body_result {A} _.

(** What a request comes to: a rejection or a decoded body. *)
Inductive Reply (A : Type) : Type :=
| Rejected
| Replied (body : Body A).
Arguments Rejected {A}.
Arguments Replied {A} _.

(** The contest lists of the component state and their persisted copies. *)
Record ContestState : Type := mkContestState {
  upcomingContests : list Contest;
  historyContests : list Contest;
  contestsLoading : bool;
  cf_upcoming_contests : option (list Contest);
  cf_history_contests : option (list Contest)
}.

(** The contest ids collected from the [user.rating] reply; the inner [try]
    swallows every failure of that request. *)
Definition participatedIds (handle : string) (rating : Reply Z) : list Z :=
  if strTruthy handle then
    match rating with
    | Rejected => []
    | Replied dataRating =>
        if String.eqb (body_status dataRating) "OK"
        then default [] (body_result dataRating)
        else []
    end
  else [].

Definition toContest (ids : list Z) (c : RemoteContest) : Contest :=
  {| contest_id := rc_id c; contest_name := rc_name c; phase := rc_phase c;
     startTimeSeconds := rc_startTimeSeconds c;
     durationSeconds := rc_durationSeconds c;
     participated := Some (bool_decide (rc_id c ∈ ids)) |}.

Definition upcomingOf (allContests : list Contest) : list Contest :=
  sortBy (λ a b, startTimeSeconds a - startTimeSeconds b)
    (List.filter (λ c, String.eqb (phase c) "BEFORE") allContests).

Definition historyOf (allContests : list Contest) : list Contest :=
  take 50
    (sortBy (λ a b, startTimeSeconds b - startTimeSeconds a)
       (List.filter (λ c, String.eqb (phase c) "FINISHED") allContests)).

(** [fetchContests], given the replies to the [contest.list] request and to
    the [user.rating] request (the latter is only made with a handle, after
    the former has been answered): the new state and the number of requests
    made. *)
Definition fetchContests (handle : string) (contests : Reply RemoteContest)
    (rating : Reply Z) (st : ContestState) : ContestState * nat :=
  let finish (s : ContestState) : ContestState :=
    {| upcomingContests := upcomingContests s;
       historyContests := historyContests s;
       contestsLoading := false;
       cf_upcoming_contests := cf_upcoming_contests s;
       cf_history_contests := cf_history_contests s |} in
  match contests with
  | Rejected => (finish st, 1%nat)
  | Replied dataContests =>
      let ids := participatedIds handle rating in
      let requests := if strTruthy handle then 2%nat else 1%nat in
      if String.eqb (body_status dataContests) "OK" then
        match body_result dataContests with
        | None => (finish st, requests)
        | Some result =>
            let allContests := map (toContest ids) result in
            let upcoming := upcomingOf allContests in
            let history := historyOf allContests in
            (finish {| upcomingContests := upcoming;
                       historyContests := history;
                       contestsLoading := true;
                       cf_upcoming_contests := Some upcoming;
                       cf_history_contests := Some history |}, requests)
        end
      else (finish st, requests)
  end.

End Overlay.

(** ** Auxiliary notions used to state and prove the properties *)

Module Db_aux.
Import Db.

(** The problem reference of [sub] when the loop body stores [sub] under
    key [k], nothing otherwise. *)
Definition writer (k : Z) (sub : RawSubmission) : option RawProblem :=
  match sub_id sub with
  | IdNum k' =>
      if negb (k' =? 0) && bool_decide (k' = k) then sub_problem sub else None
  | _ => None
  end.

(** The last element of the batch stored under key [k]. *)
Fixpoint lastWriter (k : Z) (batch : list RawSubmission)
    : option (RawProblem * RawSubmission) :=
  match batch with
  | [] => None
  | sub :: rest =>
      match lastWriter k rest with
      | Some w => Some w
      | None => (λ p, (p, sub)) <$> writer k sub
      end
  end.

(** Sample data: problem 4A, a stored submission that already has code, and
    re-synced copies of it. *)
Definition problem4A : RawProblem :=
  mkRawProblem (Some 4) "A" "Watermelon" (Some 800) (Some ["brute force"; "math"]).

Definition storedWithCode : Submission :=
  mkSubmission 1001 (Some 4) "A" "Watermelon" (Some 800) ["brute force"; "math"]
    "GNU C++17" (Some "WRONG_ANSWER") "TESTS" 2 15 1536 (Some 1700000000)
    (Some "int main() {}").

Definition storeWithCode : gmap Z Submission := {[ 1001 := storedWithCode ]}.

(** The batch element [sub] without its [code]. *)
Definition withoutCode (sub : RawSubmission) : RawSubmission :=
  mkRawSubmission (sub_id sub) (sub_problem sub) (sub_programmingLanguage sub)
    (sub_verdict sub) (sub_testset sub) (sub_passedTestCount sub)
    (sub_timeConsumedMillis sub) (sub_memoryConsumedBytes sub)
    (sub_creationTimeSeconds sub) None.

Definition resync (i : RawId) (c : option string) : RawSubmission :=
  mkRawSubmission i (Some problem4A) "GNU C++17" (Some "OK") "TESTS" 9 31 2048
    (Some 1700000000) c.

End Db_aux.

Module Overlay_aux.
Import Js Overlay.

(** The problem [p] with its [rating] field replaced. *)
Definition withRating (r : option Z) (p : Problem) : Problem :=
  {| id := id p; name := name p; tags := tags p; rating := r;
     contestId := contestId p; index := index p |}.

(** The rating condition of the match predicate, for resolved bounds. *)
Definition ratingCondition (min max : option Z) (r : option Z) : Prop :=
  match r with
  | Some 0 | None => min = Some 0
  | Some x => ∃ lo hi, min = Some lo ∧ max = Some hi ∧ lo ≤ x ≤ hi
  end.

(** The two failures of a refresh: the request is rejected, or the body
    reports a status other than OK. *)
Definition refreshFails (o : FetchOutcome) : Prop :=
  match o with
  | Rejects => True
  | Responds data => status data ≠ "OK"
  end.

Definition unratedProblem : Problem :=
  mkProblem "1A" "Theatre Square" (Some ["math"]) None (Some 1) None.

Definition staleState : AppState :=
  {| allProblemsCache := [unratedProblem];
     systemFolders := [mkFolder "sys_math" "MATH" [unratedProblem] None];
     isLoading := false;
     storage := {| cf_all_problems_cache := Some [unratedProblem];
                   cf_cache_time := Some 1700000000000;
                   cf_sys_folders :=
                     Some [mkFolder "sys_math" "MATH" [unratedProblem] None] |} |}.

Fixpoint allChars (f : ascii -> bool) (s : string) : bool :=
  match s with
  | EmptyString => true
  | String c s' => f c && allChars f s'
  end.



(** The verdicts that have a rule of their own. *)
Definition namedVerdicts : list string :=
  ["OK"; "COMPILATION_ERROR"; "WRONG_ANSWER"; "TIME_LIMIT_EXCEEDED";
   "MEMORY_LIMIT_EXCEEDED"; "RUNTIME_ERROR"].


(** A submission whose problem name and language both contain double
    quotes. *)
Definition languageWithQuotes : string := "My " +:+ quoted "Lang".

Definition rowWithQuotes : Db.Submission :=
  Db.mkSubmission 1001 (Some 4) "A" ("He said " +:+ quoted "hi") (Some 800)
    ["brute force"; "math"] languageWithQuotes (Some "WRONG_ANSWER") "TESTS"
    2 15 1536 (Some 1700000000) None.

(** The part of the ranking that does not depend on the collation: the
    score, then the length of the id. *)
Definition rankedBefore (searchText : string) (a b : Problem) : Prop :=
  getScore searchText a < getScore searchText b
  ∨ (getScore searchText a = getScore searchText b
     ∧ (String.length (id a) ≤ String.length (id b))%nat).

(** A stand-in for the host's collation: equal strings compare equal, all
    others as ordered first. The sample search never reaches it. *)
Definition sameOrBefore (a b : string) : Z := if String.eqb a b then 0 else -1.

Definition catalog4a : list Problem :=
  [ mkProblem "1504A" "Deja Vu" (Some ["constructive algorithms"; "strings"])
      (Some 800) (Some 1504) None;
    mkProblem "44A" "Indian Summer" (Some ["implementation"]) (Some 900) (Some 44) None;
    mkProblem "4A" "Watermelon" (Some ["brute force"; "math"]) (Some 1200) (Some 4) None ].

(** The id the refresh derives for a remote entry. *)
Definition derivedId (p : RemoteProblem) : string :=
  optNumToString (r_contestId p) +:+ r_index p.

(** An index that does not begin with a digit, as the letter-first indices of
    the remote source. *)
Definition noLeadingDigit (s : string) : bool :=
  match s with
  | String c _ => negb (isDigit c)
  | EmptyString => true
  end.

(** A contest id that a JavaScript number holds exactly, so that the
    template literal renders it in plain decimal; an absent one is rendered
    as the word undefined. *)
Definition safeContestId (r : RemoteProblem) : bool :=
  match r_contestId r with
  | Some n => isSafeInteger n
  | None => true
  end.

Definition remote4A : RemoteProblem :=
  mkRemoteProblem (Some 4) "A" "Watermelon" (Some ["brute force"; "math"]) (Some 800).
Definition remote1504A : RemoteProblem :=
  mkRemoteProblem (Some 1504) "A" "Deja Vu" (Some ["strings"]) (Some 800).

(** A remote entry whose index contains the line separator U+2028. *)
Definition remoteTwoLines : RemoteProblem :=
  mkRemoteProblem (Some 1504) ("A" +:+ lineSeparator +:+ "B") "Deja Vu"
    (Some ["strings"]) (Some 800).

Definition emptyState : AppState :=
  {| allProblemsCache := []; systemFolders := []; isLoading := false;
     storage := mkStorage None None None |}.
End Overlay_aux.

Module Extra_aux.
Import Js Overlay Overlay_aux.

(** The order of the entries of the [by-creation] index. *)
Definition entryBefore (a b : Z * Db.Submission) : Prop :=
  Db.creationKey a.2 < Db.creationKey b.2
  ∨ (Db.creationKey a.2 = Db.creationKey b.2 ∧ a.1 ≤ b.1).

(** Both records have a creation time, and that of [a] is not after that of
    [b]. *)
Definition createdNotAfter (a b : Db.Submission) : Prop :=
  ∃ ta tb, Db.creationTimeSeconds a = Some ta ∧ Db.creationTimeSeconds b = Some tb
           ∧ ta ≤ tb.

(** The records of the store that have a creation time. *)
Definition dated (r : Db.Submission) : Prop := is_Some (Db.creationTimeSeconds r).

(** A stored submission without creation time. *)
Definition storedUndated : Db.Submission :=
  Db.mkSubmission 1002 (Some 4) "A" "Watermelon" (Some 800) ["brute force"; "math"]
    "GNU C++17" (Some "OK") "TESTS" 9 31 2048 None None.

Definition storeWithUndated : gmap Z Db.Submission :=
  {[ 1001 := Db_aux.storedWithCode; 1002 := storedUndated ]}.

(** The status key of a submission: contest id followed by index. *)
Definition statusKey (sub : Db.RawSubmission) : option string :=
  (λ p, optNumToString (Db.rp_contestId p) +:+ Db.rp_index p) <$> Db.sub_problem sub.

Definition accepted (pid : string) (sub : Db.RawSubmission) : Prop :=
  statusKey sub = Some pid ∧ Db.sub_verdict sub = Some "OK".

(** The ways a status sync fails: the request is rejected, the body reports a
    status other than OK, or its result cannot be read (no array, or a
    submission without problem). *)
Definition statusSyncFails (o : StatusOutcome) : Prop :=
  match o with
  | StatusRejects => True
  | StatusResponds data =>
      sp_status data ≠ "OK"
      ∨ match sp_result data with
        | None => True
        | Some subs => Exists (λ sub, Db.sub_problem sub = None) subs
        end
  end.

(** The ways a submission sync fails: the request is rejected, the body
    reports a status other than OK, or it carries no result array. *)
Definition dataSyncFails (o : StatusOutcome) : Prop :=
  match o with
  | StatusRejects => True
  | StatusResponds data => sp_status data ≠ "OK" ∨ sp_result data = None
  end.

(** What the data view shows agrees with the store. *)
Definition viewInSync (st : DataState) : Prop :=
  dbCount st = Db.getSubmissionCount (submissions st)
  ∧ localPreview st = Db.getRecentSubmissions 50 (submissions st).

Definition sampleStatusSubs : list Db.RawSubmission :=
  [ Db_aux.resync (Db.IdNum 1) None;
    Db.mkRawSubmission (Db.IdNum 2) (Some Db_aux.problem4A) "GNU C++17"
      (Some "WRONG_ANSWER") "TESTS" 2 15 1536 (Some 1700000100) None ].

Definition emptyStatusState : StatusState := mkStatusState ∅ None.

Definition sampleDataState : DataState :=
  mkDataState Db_aux.storeWithCode 1 [Db_aux.storedWithCode] "".

(** No problem id occurs twice in a folder. *)
Definition uniqueIds (f : Folder) : Prop := NoDup (map id (problems f)).

Definition favorites : list Folder :=
  [ mkFolder "fav_def" "My Favorites" [unratedProblem] (Some true);
    mkFolder "f_1700000000000" "Graphs" [] (Some true) ].

Definition problem44A : Problem :=
  mkProblem "44A" "Indian Summer" (Some ["implementation"]) (Some 900) (Some 44) None.

(** The contest id used for ordering, for problems that have one. *)
Definition contestOf (p : Problem) : Z := default 0 (contestId p).

(** The characters a formatted date is made of: digits and separators, and
    the letters of NaN for an invalid date. *)
Definition dateChar (c : ascii) : bool :=
  isDigit c || Ascii.eqb c "-" || Ascii.eqb c ":" || Ascii.eqb c " "
  || Ascii.eqb c "N" || Ascii.eqb c "a".

(** [c] occurs in [s]. *)
Fixpoint hasChar (c : ascii) (s : string) : bool :=
  match s with
  | EmptyString => false
  | String a s' => Ascii.eqb a c || hasChar c s'
  end.

(** A stand-in for the host's calendar: one fixed reading for every time
    value within the range of [Date], 8.64e15 milliseconds either side of the
    epoch. *)
Definition sampleDate (ms : Z) : option DateFields :=
  if Z.abs ms <=? 8640000000000000
  then Some (mkDateFields 2023 10 14 22 13 20)
  else None.

(** [f] holds of the integers from [lo] up to, not including, [hi]. *)
Definition holdsOnRange (f : Z → bool) (lo hi : Z) : bool :=
  forallb (λ i, f (lo + Z.of_nat i)) (seq 0 (Z.to_nat (hi - lo))).

(** ASCII text. *)
Definition isAscii (c : ascii) : bool := (nat_of_ascii c <? 128)%nat.
Definition asciiText (s : string) : bool := allChars isAscii s.

(** The characters that the verdict texts and the test number are made of. *)
Definition plainChar (c : ascii) : bool :=
  isUpper c || isLower c || isDigit c || Ascii.eqb c " " || Ascii.eqb c "_"
  || Ascii.eqb c "-".

(** A catalog of 25 problems with the tag math, of the contests 1 to 25 in
    that order, and its system folder for the tag: the 20 most recent of
    them, the most recent first. *)
Definition mathProblem (n : nat) : Problem :=
  mkProblem (numToString (Z.of_nat n) +:+ "A") "Sum" (Some ["math"]) (Some 800)
    (Some (Z.of_nat n)) None.

Definition mathCatalog : list Problem := map mathProblem (seq 1 25).

Definition mathFolder : Folder :=
  {| folderId := "sys_math"; title := "MATH";
     problems := map mathProblem (reverse (seq 6 20));
     isCustom := None |}.

Definition sampleContests : list RemoteContest :=
  [ mkRemoteContest 1901 "Round 905" "FINISHED" 1697970900 7200;
    mkRemoteContest 1915 "Round 910" "BEFORE" 1700404500 7200;
    mkRemoteContest 1899 "Round 904" "FINISHED" 1697366100 7200 ].

Definition emptyContestState : ContestState := mkContestState [] [] false None None.
End Extra_aux.

(** * Properties of the submission store *)

Section SaveSubmissions.
Import Db Db_aux.
Implicit Types (store : gmap Z Submission) (sub : RawSubmission) (k : Z).

(** The record put in the store depends on the record found there only
    through its [code]. *)
Lemma buildRecord_code_only k p sub (e e' : option Submission) :
  e ≫= code = e' ≫= code → buildRecord k p sub e = buildRecord k p sub e'.
Proof. unfold buildRecord. by intros ->. Qed.

Lemma saveOne_lookup store sub k :
  saveOne store sub !! k =
    match writer k sub with
    | Some p => Some (buildRecord k p sub (store !! k))
    | None => store !! k
    end.
Proof.
  unfold saveOne, writer, put, get.
  destruct (sub_id sub) as [| |k']; simpl; try done.
  destruct (sub_problem sub) as [p|]; simpl.
  - destruct (k' =? 0) eqn:Hk; simpl; [done|].
    case_bool_decide as Hkk; simpl.
    + subst k'. by rewrite lookup_insert_eq.
    + by rewrite lookup_insert_ne.
  - rewrite andb_false_r. by destruct (negb (k' =? 0) && bool_decide (k' = k)).
Qed.

(** One iteration never changes the code stored under any key. *)
Lemma saveOne_code store sub k :
  saveOne store sub !! k ≫= code = store !! k ≫= code.
Proof. rewrite saveOne_lookup. by destruct (writer k sub). Qed.

(** A record that fails the guard leaves the store as it is. *)
Lemma saveOne_skip store sub :
  idTruthy (sub_id sub) = false ∨ sub_problem sub = None →
  saveOne store sub = store.
Proof.
  unfold saveOne. intros [-> | ->]; [done|].
  by rewrite andb_false_r.
Qed.

(** The store after a batch, key by key: the last element of the batch
    written under the key, carrying the code the key had before the batch. *)
Lemma saveSubmissions_lookup batch : ∀ store k,
  saveSubmissions batch store !! k =
    match lastWriter k batch with
    | Some (p, sub) => Some (buildRecord k p sub (store !! k))
    | None => store !! k
    end.
Proof.
  unfold saveSubmissions.
  induction batch as [|sub rest IH]; intros store k; simpl; [done|].
  rewrite IH. destruct (lastWriter k rest) as [[p sub']|].
  - f_equal. apply buildRecord_code_only, saveOne_code.
  - rewrite saveOne_lookup. by destruct (writer k sub).
Qed.

(** The merge does not read the [code] of the batch. *)
Lemma saveOne_withoutCode store sub : saveOne store (withoutCode sub) = saveOne store sub.
Proof. reflexivity. Qed.

Lemma saveSubmissions_withoutCode batch : ∀ store,
  saveSubmissions (map withoutCode batch) store = saveSubmissions batch store.
Proof.
  unfold saveSubmissions.
  induction batch as [|sub rest IH]; intros store; simpl; [done|].
  by rewrite saveOne_withoutCode, IH.
Qed.

(** C1, as the code has it: whatever batch is merged, the code found under a
    key after the merge is the code found there before it. A key that is
    already in the store keeps the code it had, whether the incoming records
    for that key omit [code] or supply one; a key that the batch creates has
    no code, however many records of the batch carry that id and whatever
    code they supply; and the merged store is the one obtained from the batch
    stripped of every [code]: an incoming [code] is never read, so never
    written. *)
Theorem saveSubmissions_code_sticky batch store k :
  get (saveSubmissions batch store) k ≫= code = get store k ≫= code
  ∧ (∀ r, get store k = Some r →
       ∃ r', get (saveSubmissions batch store) k = Some r' ∧ code r' = code r)
  ∧ (get store k = None →
       ∀ r', get (saveSubmissions batch store) k = Some r' → code r' = None)
  ∧ saveSubmissions (map withoutCode batch) store = saveSubmissions batch store.
Proof.
  unfold get. rewrite saveSubmissions_lookup.
  split; [|split; [|split]].
  - by destruct (lastWriter k batch) as [[p sub]|].
  - intros r Hr. rewrite Hr. destruct (lastWriter k batch) as [[p sub]|]; eauto.
  - intros Hnone r'. rewrite Hnone.
    destruct (lastWriter k batch) as [[p sub]|]; [|done]. by intros [= <-].
  - apply saveSubmissions_withoutCode.
Qed.

Lemma saveSubmissions_code_sticky_witness :
  get storeWithCode 1001 = Some storedWithCode
  ∧ get storeWithCode 7 = None
  ∧ (∃ r', get (saveSubmissions
                  [resync (IdNum 1001) (Some "print(1)"); resync (IdNum 1001) None]
                  storeWithCode) 1001 = Some r'
           ∧ code r' = code storedWithCode)
  ∧ (∃ r', get (saveSubmissions
                  [resync (IdNum 7) (Some "print(1)"); resync (IdNum 7) (Some "print(2)")]
                  storeWithCode) 7 = Some r'
           ∧ code r' = None).
Proof.
  split; [reflexivity|]. split; [reflexivity|]. split.
  - apply (saveSubmissions_code_sticky
             [resync (IdNum 1001) (Some "print(1)"); resync (IdNum 1001) None]
             storeWithCode 1001).
    reflexivity.
  - eexists. split; [reflexivity|].
    apply (saveSubmissions_code_sticky
             [resync (IdNum 7) (Some "print(1)"); resync (IdNum 7) (Some "print(2)")]
             storeWithCode 7); reflexivity.
Defined.

(** C1 as stated fails: an incoming record that supplies [code] for an
    existing id does not overwrite the stored code. *)
Lemma saveSubmissions_incoming_code_ignored :
  let incoming := resync (IdNum 1001) (Some "print(1)") in
  get storeWithCode 1001 = Some storedWithCode
  ∧ sub_code incoming = Some "print(1)"
  ∧ get (saveSubmissions [incoming] storeWithCode) 1001 ≫= code
    = Some "int main() {}"
  ∧ get (saveSubmissions [incoming] storeWithCode) 1001 ≫= code
    ≠ sub_code incoming.
Proof. vm_compute. repeat split; discriminate. Qed.

(** C4: merging a batch a second time changes nothing: the store is the
    same map (keys are unique by construction), so it has the same number of
    records and the same record under every key. *)
Theorem saveSubmissions_idempotent batch store :
  saveSubmissions batch (saveSubmissions batch store) = saveSubmissions batch store
  ∧ getSubmissionCount (saveSubmissions batch (saveSubmissions batch store))
    = getSubmissionCount (saveSubmissions batch store)
  ∧ ∀ k, get (saveSubmissions batch (saveSubmissions batch store)) k
         = get (saveSubmissions batch store) k.
Proof.
  assert (saveSubmissions batch (saveSubmissions batch store)
          = saveSubmissions batch store) as Heq.
  { apply map_eq; intros k.
    rewrite (saveSubmissions_lookup batch (saveSubmissions batch store)).
    rewrite !saveSubmissions_lookup.
    destruct (lastWriter k batch) as [[p sub]|]; [|done].
    reflexivity. }
  by rewrite Heq.
Qed.

(** C10: a record without problem reference is skipped, and so is a record
    whose id is missing, [null] or [0], even with a complete problem
    reference: processing it leaves the store as it is, and the batch has the
    effect of the batch without it. *)
Theorem saveSubmissions_skips_falsy_id pre sub post store :
  sub_problem sub = None
  ∨ sub_id sub = IdUndefined ∨ sub_id sub = IdNull ∨ sub_id sub = IdNum 0 →
  saveOne store sub = store
  ∧ saveSubmissions (pre ++ sub :: post) store = saveSubmissions (pre ++ post) store.
Proof.
  intros Hskip.
  assert (∀ st, saveOne st sub = st) as Hone.
  { intros st. apply saveOne_skip.
    destruct Hskip as [-> | [-> | [-> | ->]]]; auto. }
  split; [apply Hone|].
  unfold saveSubmissions. rewrite !fold_left_app. simpl.
  by rewrite Hone.
Qed.

Lemma saveSubmissions_skips_falsy_id_witness :
  saveOne storeWithCode (resync (IdNum 0) None) = storeWithCode
  ∧ saveSubmissions ([resync (IdNum 7) None] ++ resync (IdNum 0) None
                       :: [resync (IdNum 8) None]) storeWithCode
    = saveSubmissions ([resync (IdNum 7) None] ++ [resync (IdNum 8) None])
        storeWithCode.
Proof.
  apply (saveSubmissions_skips_falsy_id [resync (IdNum 7) None]
           (resync (IdNum 0) None) [resync (IdNum 8) None] storeWithCode).
  right; right; right; reflexivity.
Defined.
End SaveSubmissions.

(** * Properties of the match predicate *)

Section MatchPredicate.
Import Js Overlay Overlay_aux.

(** The rating test of the predicate, as a condition on the resolved bounds. *)
Lemma ratingMatch_spec min max p :
  ratingMatch min max p = true ↔ ratingCondition min max (rating p).
Proof.
  unfold ratingMatch, ratingCondition, optNumTruthy, numGe, numLe, numStrictEq.
  destruct (rating p) as [[|x|x]|]; simpl.
  - destruct min as [m|]; [|by split]. rewrite Z.eqb_eq. split; congruence.
  - split.
    + destruct min as [lo|], max as [hi|]; try (rewrite ?andb_false_r; done).
      rewrite andb_true_iff, !Z.leb_le. intros [??]. exists lo, hi. auto.
    + intros (lo & hi & -> & -> & ? & ?). rewrite andb_true_iff, !Z.leb_le. auto.
  - split.
    + destruct min as [lo|], max as [hi|]; try (rewrite ?andb_false_r; done).
      rewrite andb_true_iff, !Z.leb_le. intros [??]. exists lo, hi. auto.
    + intros (lo & hi & -> & -> & ? & ?). rewrite andb_true_iff, !Z.leb_le. auto.
  - destruct min as [m|]; [|by split]. rewrite Z.eqb_eq. split; congruence.
Qed.

(** The filter of the random pick is the search predicate, restricted to
    problems not yet solved when statuses are shown. *)
Lemma poolFilter_unfold showStatus userStatus searchText minRating maxRating p :
  poolFilter showStatus userStatus searchText minRating maxRating p =
  isMatch searchText minRating maxRating p
  && (negb showStatus || negb (bool_decide (userStatus !! id p = Some "OK"))).
Proof. reflexivity. Qed.


(** C8, as the code has it: a problem matches exactly when the text condition
    holds and its rating, when present and not zero, lies between the
    resolved bounds, while for a rating that is absent (or zero) the minimum
    must resolve to 0. The random pick's filter requires the same rating
    condition. A problem without rating is excluded as soon as the minimum
    resolves to a positive number, in particular for the filter 1500 to 1900. *)
Theorem isMatch_rating_condition searchText minRating maxRating p :
  (isMatch searchText minRating maxRating p = true ↔
     textMatch searchText p = true
     ∧ ratingCondition (resolveMin minRating) (resolveMax maxRating) (rating p))
  ∧ (∀ showStatus userStatus,
       poolFilter showStatus userStatus searchText minRating maxRating p = true →
       ratingCondition (resolveMin minRating) (resolveMax maxRating) (rating p))
  ∧ (∀ m, resolveMin minRating = Some m → 0 < m → rating p = None →
       isMatch searchText minRating maxRating p = false
       ∧ ∀ showStatus userStatus,
           poolFilter showStatus userStatus searchText minRating maxRating p = false)
  ∧ (rating p = None → isMatch searchText "1500" "1900" p = false).
Proof.
  assert (isMatch searchText minRating maxRating p = true ↔
     textMatch searchText p = true
     ∧ ratingCondition (resolveMin minRating) (resolveMax maxRating) (rating p)) as Hm.
  { unfold isMatch. by rewrite andb_true_iff, ratingMatch_spec. }
  assert (∀ mR xR m, resolveMin mR = Some m → 0 < m → rating p = None →
            isMatch searchText mR xR p = false) as Hnone.
  { intros mR xR m Hmin Hpos Hr. unfold isMatch, ratingMatch.
    rewrite Hr, Hmin. simpl. apply andb_false_iff. right. apply Z.eqb_neq. lia. }
  split; [exact Hm|]. split; [|split].
  - intros showStatus userStatus. rewrite poolFilter_unfold, andb_true_iff.
    intros [H _]. by apply Hm in H as [_ H].
  - intros m Hmin Hpos Hr. split; [by eapply Hnone|].
    intros. rewrite poolFilter_unfold. by erewrite Hnone.
  - intros Hr. by apply (Hnone "1500" "1900" 1500).
Qed.

(** C8 as stated fails for a rating that is present but zero: such a problem
    matches although the rating is not within the bounds. *)
Lemma isMatch_zero_rating_outside_bounds :
  let p := mkProblem "1A" "Theatre Square" (Some ["math"]) (Some 0) (Some 1) None in
  isMatch "" "" "-1" p = true
  ∧ rating p = Some 0
  ∧ resolveMin "" = Some 0 ∧ resolveMax "-1" = Some (-1)
  ∧ ¬ (0 ≤ 0 ≤ -1).
Proof. vm_compute. repeat split; try discriminate. intros [_ H]. by apply H. Qed.

(** C9: a rating of 0 is treated as an absent rating, by the search
    predicate and by the filter of the random pick: the outcome is the same
    as without rating; such a problem matches exactly when the text condition
    holds and the minimum resolves to 0 (for the random pick, when moreover
    it is not shown as solved), so that the maximum bound plays no part; and
    the random pick does draw such a problem when it is the one candidate. *)
Theorem zero_rating_as_absent searchText minRating maxRating showStatus userStatus p :
  let p0 := withRating (Some 0) p in
  let pN := withRating None p in
  let notSolved := negb showStatus || negb (bool_decide (userStatus !! id p = Some "OK")) in
  isMatch searchText minRating maxRating p0 = isMatch searchText minRating maxRating pN
  ∧ poolFilter showStatus userStatus searchText minRating maxRating p0
    = poolFilter showStatus userStatus searchText minRating maxRating pN
  ∧ (isMatch searchText minRating maxRating p0 = true ↔
       textMatch searchText p = true ∧ resolveMin minRating = Some 0)
  ∧ (poolFilter showStatus userStatus searchText minRating maxRating p0 = true ↔
       textMatch searchText p = true ∧ resolveMin minRating = Some 0
       ∧ notSolved = true)
  ∧ (resolveMin minRating = Some 0 → ∀ maxRating',
       isMatch searchText minRating maxRating' p0 = textMatch searchText p
       ∧ poolFilter showStatus userStatus searchText minRating maxRating' p0
         = textMatch searchText p && notSolved)
  ∧ (resolveMin minRating = Some 0 → textMatch searchText p = true →
     notSolved = true → ∀ num den maxRating', (num < den)%nat →
       handleRandomPick num den showStatus userStatus searchText minRating
         maxRating' [p0]
       = Picked p0 (problemHref (id p)))
  ∧ (resolveMin minRating ≠ Some 0 → ∀ num den maxRating',
       handleRandomPick num den showStatus userStatus searchText minRating
         maxRating' [p0]
       = NoUnsolved).
Proof.
  intros p0 pN notSolved.
  assert (textMatch searchText p0 = textMatch searchText p) as Ht by reflexivity.
  assert (∀ mR xR, isMatch searchText mR xR p0 = isMatch searchText mR xR pN) as Heq
    by reflexivity.
  assert (∀ xR, isMatch searchText minRating xR p0
                = textMatch searchText p && numStrictEq (resolveMin minRating) 0) as Hm
    by reflexivity.
  assert (∀ xR, poolFilter showStatus userStatus searchText minRating xR p0
                = textMatch searchText p && numStrictEq (resolveMin minRating) 0
                  && notSolved) as Hp by reflexivity.
  assert (numStrictEq (resolveMin minRating) 0 = true ↔ resolveMin minRating = Some 0)
    as Hz.
  { unfold numStrictEq. destruct (resolveMin minRating) as [m|]; [|by split].
    rewrite Z.eqb_eq. split; congruence. }
  split; [apply Heq|]. split; [by rewrite !poolFilter_unfold, Heq|].
  split; [by rewrite Hm, andb_true_iff, Hz|].
  split; [by rewrite Hp, !andb_true_iff, Hz, (assoc and)|].
  split; [|split].
  - intros H0 xR. apply Hz in H0. rewrite Hm, Hp, H0, andb_true_r. done.
  - intros H0 Htext Hns num den xR Hnd. apply Hz in H0.
    unfold handleRandomPick. simpl List.filter.
    rewrite Hp, Htext, H0, Hns. simpl.
    unfold randomIndex. by rewrite Nat.mul_1_r, Nat.div_small.
  - intros H0 num den xR.
    unfold handleRandomPick. simpl List.filter. rewrite Hp.
    destruct (numStrictEq (resolveMin minRating) 0); [by destruct H0; apply Hz|].
    by rewrite andb_false_r.
Qed.
End MatchPredicate.

(** * Properties of the random pick *)

Section RandomPick.
Import Js Overlay.

Lemma randomIndex_lt num den len :
  (num < den)%nat → (0 < len)%nat → (randomIndex num den len < len)%nat.
Proof.
  intros Hnd Hlen. unfold randomIndex.
  apply Nat.Div0.div_lt_upper_bound. nia.
Qed.

(** The three outcomes of the handler: the index is empty, the filtered pool is
    empty, or a problem of the pool is drawn. The draw never falls outside
    the pool. *)
Lemma handleRandomPick_outcomes num den showStatus userStatus
    searchText minRating maxRating cache :
  (num < den)%nat →
  let pool :=
    List.filter (poolFilter showStatus userStatus searchText minRating maxRating)
      cache in
  match handleRandomPick num den showStatus userStatus searchText minRating
          maxRating cache with
  | IndexEmpty => cache = []
  | NoUnsolved => cache ≠ [] ∧ pool = []
  | Picked p href => p ∈ pool ∧ href = problemHref (id p)
  end.
Proof.
  intros Hnd pool. unfold handleRandomPick. fold pool.
  destruct cache as [|p0 cache']; [done|].
  change (length (p0 :: cache') =? 0)%nat with false. cbv iota.
  destruct (Nat.eqb_spec (length pool) 0) as [Hz|Hnz].
  - split; [done|]. by apply length_zero_iff_nil.
  - destruct (lookup_lt_is_Some_2 pool (randomIndex num den (length pool)))
      as [p Hp]; [apply randomIndex_lt; lia|].
    rewrite Hp. split; [|done]. by eapply list_elem_of_lookup_2.
Qed.
End RandomPick.

(** * Properties of the catalog refresh *)

Section Refresh.
Import Js Overlay Overlay_aux.

(** C5: when the request is rejected or the body reports a status other than
    OK, the cached problems, the system folders and what is persisted stay as
    they were, the loading flag is cleared, and the refresh has issued exactly
    one request: the remaining network outcomes are untouched. *)
Theorem fetchCFProblems_failure_keeps_snapshot now o rest st :
  refreshFails o →
  let '(st', net') := fetchCFProblems now (o :: rest) st in
  allProblemsCache st' = allProblemsCache st
  ∧ systemFolders st' = systemFolders st
  ∧ storage st' = storage st
  ∧ isLoading st' = false
  ∧ net' = rest.
Proof.
  intros Hfail. unfold fetchCFProblems. simpl.
  destruct o as [|data]; simpl; [done|].
  simpl in Hfail. apply String.eqb_neq in Hfail. by rewrite Hfail.
Qed.

Lemma fetchCFProblems_failure_keeps_snapshot_witness :
  let '(st', net') :=
    fetchCFProblems 1700000500000
      (Responds (mkPayload "FAILED" None) :: [Rejects]) staleState in
  allProblemsCache st' = allProblemsCache staleState
  ∧ systemFolders st' = systemFolders staleState
  ∧ storage st' = storage staleState
  ∧ isLoading st' = false
  ∧ net' = [Rejects].
Proof.
  apply (fetchCFProblems_failure_keeps_snapshot 1700000500000
           (Responds (mkPayload "FAILED" None)) [Rejects] staleState).
  simpl. discriminate.
Defined.
End Refresh.

(** * Properties of the catalog ids *)

Section Decimal.
Import Js Overlay Overlay_aux.

Lemma append_nil_l s : "" +:+ s = s.
Proof. reflexivity. Qed.

Lemma append_cons c s t : String c s +:+ t = String c (s +:+ t).
Proof. reflexivity. Qed.

Lemma pretty_N_char_digit x : isDigit (pretty_N_char x) = true.
Proof. unfold pretty_N_char. by repeat case_match. Qed.

Lemma pretty_N_go_digits x : ∀ s,
  allChars isDigit s = true → allChars isDigit (pretty_N_go x s) = true.
Proof.
  induction (N.lt_wf_0 x) as [x _ IH]; intros s Hs.
  destruct (decide (x = 0)%N) as [->|Hx]; [by rewrite pretty_N_go_0|].
  rewrite pretty_N_go_step by lia.
  apply IH; [apply N.div_lt; lia|].
  simpl. by rewrite pretty_N_char_digit.
Qed.

Lemma pretty_N_go_nonempty x : ∀ s, s ≠ "" → pretty_N_go x s ≠ "".
Proof.
  induction (N.lt_wf_0 x) as [x _ IH]; intros s Hs.
  destruct (decide (x = 0)%N) as [->|Hx]; [by rewrite pretty_N_go_0|].
  rewrite pretty_N_go_step by lia.
  apply IH; [apply N.div_lt; lia|done].
Qed.

Lemma pretty_N_digits (x : N) :
  allChars isDigit (pretty x) = true ∧ pretty x ≠ "".
Proof.
  unfold pretty, pretty_N. case_decide as Hx; [done|]. split.
  - by apply pretty_N_go_digits.
  - rewrite pretty_N_go_step by lia. by apply pretty_N_go_nonempty.
Qed.

(** The decimal rendering of an integer: an optional minus sign, then a
    non-empty run of digits. *)
Lemma numToString_shape (n : Z) :
  ∃ d, allChars isDigit d = true ∧ d ≠ ""
       ∧ numToString n = (if n <? 0 then "-" +:+ d else d).
Proof.
  unfold numToString, pretty, pretty_Z. destruct n as [|p|p]; simpl.
  - by exists "0".
  - exists (pretty (N.pos p)). by destruct (pretty_N_digits (N.pos p)).
  - exists (pretty (N.pos p)). by destruct (pretty_N_digits (N.pos p)).
Qed.

Lemma digits_split d1 : ∀ d2 i1 i2,
  allChars isDigit d1 = true → allChars isDigit d2 = true →
  noLeadingDigit i1 = true → noLeadingDigit i2 = true →
  d1 +:+ i1 = d2 +:+ i2 → d1 = d2 ∧ i1 = i2.
Proof.
  induction d1 as [|c d1 IH]; intros [|c' d2] i1 i2 H1 H2 Hi1 Hi2 Heq;
    rewrite ?append_nil_l, ?append_cons in Heq; simpl in H1, H2.
  - done.
  - subst i1. simpl in Hi1. apply andb_true_iff in H2 as [Hc _].
    by rewrite Hc in Hi1.
  - subst i2. simpl in Hi2. apply andb_true_iff in H1 as [Hc _].
    by rewrite Hc in Hi2.
  - injection Heq as -> Heq.
    apply andb_true_iff in H1 as [_ H1]. apply andb_true_iff in H2 as [_ H2].
    destruct (IH d2 i1 i2) as [-> ->]; auto.
Qed.

Lemma derivedId_inj c1 i1 c2 i2 :
  noLeadingDigit i1 = true → noLeadingDigit i2 = true →
  optNumToString c1 +:+ i1 = optNumToString c2 +:+ i2 →
  c1 = c2 ∧ i1 = i2.
Proof.
  intros Hi1 Hi2. destruct c1 as [n1|], c2 as [n2|]; simpl.
  - destruct (numToString_shape n1) as (d1 & Hd1 & Hne1 & E1).
    destruct (numToString_shape n2) as (d2 & Hd2 & Hne2 & E2).
    intros Heq.
    assert (numToString n1 = numToString n2 ∧ i1 = i2) as [Hn ->].
    { rewrite E1, E2 in *.
      destruct (n1 <? 0), (n2 <? 0); rewrite ?append_cons, ?append_nil_l in Heq.
      - injection Heq as Heq. by destruct (digits_split d1 d2 i1 i2) as [-> ->].
      - destruct d2 as [|c d2]; [done|]. rewrite append_cons in Heq.
        injection Heq as <- _. simpl in Hd2. done.
      - destruct d1 as [|c d1]; [done|]. rewrite append_cons in Heq.
        injection Heq as -> _. simpl in Hd1. done.
      - by destruct (digits_split d1 d2 i1 i2) as [-> ->]. }
    split; [|done]. f_equal. by apply (inj pretty).
  - destruct (numToString_shape n1) as (d1 & Hd1 & Hne1 & E1).
    rewrite E1. destruct (n1 <? 0); rewrite ?append_cons; [done|].
    destruct d1 as [|c d1]; [done|]. rewrite append_cons. intros [= -> _]. done.
  - destruct (numToString_shape n2) as (d2 & Hd2 & Hne2 & E2).
    rewrite E2. destruct (n2 <? 0); rewrite ?append_cons; [done|].
    destruct d2 as [|c d2]; [done|]. rewrite append_cons. intros [= <- _]. done.
  - intros Heq. split; [done|]. by apply (String.app_inj "undefined").
Qed.
End Decimal.

Section CatalogIds.
Import Js Overlay Overlay_aux.

Lemma fetchCFProblems_success now rest st data remote :
  status data = "OK" → result_problems data = Some remote →
  fetchCFProblems now (Responds data :: rest) st
  = (setIsLoading false (applySnapshot now remote (setIsLoading true st)), rest).
Proof.
  intros Hs Hr. unfold fetchCFProblems. simpl. by rewrite Hs, Hr.
Qed.

Lemma normalize_id remote :
  Forall2 (λ r p, id p = optNumToString (r_contestId r) +:+ r_index r
                  ∧ contestId p = r_contestId r) remote (map normalize remote).
Proof. induction remote as [|r remote IH]; simpl; constructor; auto. Qed.

Lemma map_id_normalize remote : map id (map normalize remote) = map derivedId remote.
Proof. by rewrite map_map. Qed.

(** C7, as the code has it: after a successful refresh every problem of the
    snapshot has as id the contest id of its remote entry followed by the
    entry's index. The refresh removes no duplicates: the ids are unique
    exactly when these concatenations are pairwise distinct in the remote
    list, which holds whenever no two entries share contest id and index, no
    index begins with a digit and every contest id is a safe integer (so that
    it is rendered in plain decimal). *)
Theorem fetchCFProblems_ids now rest st data remote :
  status data = "OK" → result_problems data = Some remote →
  let snapshot := allProblemsCache (fetchCFProblems now (Responds data :: rest) st).1 in
  Forall2 (λ r p, id p = optNumToString (r_contestId r) +:+ r_index r
                  ∧ contestId p = r_contestId r) remote snapshot
  ∧ (NoDup (map id snapshot) ↔ NoDup (map derivedId remote))
  ∧ (Forall (λ r, safeContestId r = true) remote →
     Forall (λ r, noLeadingDigit (r_index r) = true) remote →
     NoDup (map (λ r, (r_contestId r, r_index r)) remote) →
     NoDup (map id snapshot)).
Proof.
  intros Hs Hr. rewrite (fetchCFProblems_success now rest st data remote Hs Hr).
  simpl. split; [|split].
  - apply normalize_id.
  - by rewrite map_id_normalize.
  - intros _ Hidx Hnd. rewrite map_id_normalize.
    replace (map derivedId remote)
      with (map (λ ci : option Z * string, optNumToString ci.1 +:+ ci.2)
              (map (λ r, (r_contestId r, r_index r)) remote))
      by (rewrite map_map; reflexivity).
    apply (NoDup_fmap_2_strong
             (λ ci : option Z * string, optNumToString ci.1 +:+ ci.2)); [|done].
    intros [c1 i1] [c2 i2] H1 H2 Heq. simpl in Heq.
    apply list_elem_of_In, in_map_iff in H1 as (r1 & [= <- <-] & Hr1).
    apply list_elem_of_In, in_map_iff in H2 as (r2 & [= <- <-] & Hr2).
    rewrite Forall_forall in Hidx.
    apply list_elem_of_In in Hr1, Hr2.
    by destruct (derivedId_inj _ _ _ _ (Hidx _ Hr1) (Hidx _ Hr2) Heq) as [-> ->].
Qed.

Lemma fetchCFProblems_ids_witness :
  let snapshot :=
    allProblemsCache (fetchCFProblems 1700000000000
      (Responds (mkPayload "OK" (Some [remote4A; remote1504A])) :: []) emptyState).1 in
  Forall (λ r, safeContestId r = true) [remote4A; remote1504A]
  ∧ Forall (λ r, noLeadingDigit (r_index r) = true) [remote4A; remote1504A]
  ∧ NoDup (map (λ r, (r_contestId r, r_index r)) [remote4A; remote1504A])
  ∧ Forall2 (λ r p, id p = optNumToString (r_contestId r) +:+ r_index r
                    ∧ contestId p = r_contestId r) [remote4A; remote1504A] snapshot
  ∧ NoDup (map id snapshot).
Proof.
  intros snapshot.
  assert (Hsafe : Forall (λ r, safeContestId r = true) [remote4A; remote1504A])
    by (repeat constructor).
  assert (Hidx : Forall (λ r, noLeadingDigit (r_index r) = true) [remote4A; remote1504A])
    by (repeat constructor).
  assert (Hnd : NoDup (map (λ r, (r_contestId r, r_index r)) [remote4A; remote1504A])).
  { apply (bool_decide_unpack _). by vm_compute. }
  destruct (fetchCFProblems_ids 1700000000000 [] emptyState
              (mkPayload "OK" (Some [remote4A; remote1504A])) [remote4A; remote1504A]
              eq_refl eq_refl) as (Hids & _ & Hunique).
  split; [exact Hsafe|]. split; [exact Hidx|]. split; [exact Hnd|].
  split; [exact Hids|]. exact (Hunique Hsafe Hidx Hnd).
Defined.

(** C7 as stated fails: a remote list that repeats an entry yields a snapshot
    with a repeated id. *)
Lemma fetchCFProblems_repeated_id :
  let data := mkPayload "OK" (Some [remote4A; remote1504A; remote4A]) in
  map id (allProblemsCache (fetchCFProblems 1700000000000 [Responds data] emptyState).1)
  = ["4A"; "1504A"; "4A"]
  ∧ ¬ NoDup (map id (allProblemsCache
               (fetchCFProblems 1700000000000 [Responds data] emptyState).1)).
Proof.
  split; [by vm_compute|].
  change (¬ NoDup ["4A"; "1504A"; "4A"]).
  rewrite !NoDup_cons. intros [H _]. apply H. set_solver.
Qed.
End CatalogIds.

(** * Properties of the search ranking *)

Section Sorting.
Import Js.
Context {A : Type} (cmp : A → A → Z) (R : relation A).
Hypothesis R_trans : Transitive R.
Hypothesis cmp_le : ∀ x y, cmp x y ≤ 0 → R x y.
Hypothesis cmp_gt : ∀ x y, 0 < cmp x y → R y x.

Lemma insertBy_Permutation x l : insertBy cmp x l ≡ₚ x :: l.
Proof.
  induction l as [|y l IH]; simpl; [done|].
  destruct (cmp x y <=? 0); [done|].
  rewrite IH. apply Permutation_swap.
Qed.

Lemma sortBy_Permutation l : sortBy cmp l ≡ₚ l.
Proof.
  induction l as [|x l IH]; simpl; [done|].
  by rewrite insertBy_Permutation, IH.
Qed.

Lemma insertBy_sorted x l :
  StronglySorted R l → StronglySorted R (insertBy cmp x l).
Proof.
  induction 1 as [|y l Hl IH Hy]; simpl.
  - repeat constructor.
  - destruct (Z.leb_spec (cmp x y) 0) as [Hle|Hgt].
    + constructor; [by constructor|].
      constructor; [by apply cmp_le|].
      eapply Forall_impl; [exact Hy|].
      intros z Hz. by trans y; [apply cmp_le|].
    + constructor; [done|].
      rewrite insertBy_Permutation. constructor; [by apply cmp_gt|done].
Qed.

Lemma sortBy_sorted l : StronglySorted R (sortBy cmp l).
Proof.
  induction l as [|x l IH]; simpl; [constructor|by apply insertBy_sorted].
Qed.

(** In the sorted array, an earlier element is related to a later one. *)
Lemma sortBy_lookup l i j a b :
  sortBy cmp l !! i = Some a → sortBy cmp l !! j = Some b → (i < j)%nat →
  R a b.
Proof.
  intros Ha Hb Hij.
  pose proof (sortBy_sorted l) as Hs.
  rewrite <-(take_drop j (sortBy cmp l)) in Hs.
  eapply (StronglySorted_app_1_elem_of R); [exact Hs| |].
  - apply elem_of_take. eauto.
  - apply list_elem_of_lookup. exists 0%nat. by rewrite lookup_drop, Nat.add_0_r.
Qed.
End Sorting.

Section Search.
Import Js Overlay Overlay_aux.
Variable localeCompare : string → string → Z.

Lemma rankedBefore_trans searchText : Transitive (rankedBefore searchText).
Proof. unfold rankedBefore. intros a b c ??. lia. Qed.

Lemma compareProblems_le searchText a b :
  compareProblems localeCompare searchText a b ≤ 0 → rankedBefore searchText a b.
Proof.
  unfold compareProblems, rankedBefore.
  destruct (Z.eqb_spec (getScore searchText a) (getScore searchText b)); simpl; [|lia].
  destruct (Nat.eqb_spec (String.length (id a)) (String.length (id b))); simpl; lia.
Qed.

Lemma compareProblems_gt searchText a b :
  0 < compareProblems localeCompare searchText a b → rankedBefore searchText b a.
Proof.
  unfold compareProblems, rankedBefore.
  destruct (Z.eqb_spec (getScore searchText a) (getScore searchText b)); simpl; [|lia].
  destruct (Nat.eqb_spec (String.length (id a)) (String.length (id b))); simpl; lia.
Qed.

(** The global result is ordered by score, then by the length of the id. *)
Lemma global_order searchText minRating maxRating myFolders catalog i j a b :
  let g := global (searchResults localeCompare searchText minRating maxRating
                     myFolders catalog) in
  g !! i = Some a → g !! j = Some b → (i < j)%nat →
  rankedBefore searchText a b.
Proof.
  unfold searchResults, sortProblems.
  destruct (negb (strTruthy searchText) && negb (strTruthy minRating)
            && negb (strTruthy maxRating)); simpl; [done|].
  intros [Ha _]%lookup_take_Some [Hb _]%lookup_take_Some Hij.
  eapply (sortBy_lookup _ (rankedBefore searchText)); eauto.
  - apply rankedBefore_trans.
  - apply compareProblems_le.
  - apply compareProblems_gt.
Qed.

(** A problem strictly better in (score, id length) comes first. *)
Lemma global_strict_order searchText minRating maxRating myFolders catalog i j a b :
  let g := global (searchResults localeCompare searchText minRating maxRating
                     myFolders catalog) in
  g !! i = Some a → g !! j = Some b →
  ¬ rankedBefore searchText b a → (i < j)%nat.
Proof.
  intros g Ha Hb Hn.
  destruct (Nat.lt_trichotomy i j) as [?|[->|Hji]]; [done| |].
  - rewrite Ha in Hb. injection Hb as ->. exfalso. apply Hn. right. split; lia.
  - exfalso. apply Hn. by eapply global_order.
Qed.

Lemma global_no_cap searchText minRating maxRating myFolders catalog p :
  strTruthy searchText = true →
  p ∈ catalog → isMatch searchText minRating maxRating p = true →
  (length (List.filter (isMatch searchText minRating maxRating) catalog) ≤ 50)%nat →
  p ∈ global (searchResults localeCompare searchText minRating maxRating
                myFolders catalog).
Proof.
  intros Hs Hp Hm Hlen. unfold searchResults, sortProblems. rewrite Hs. simpl.
  rewrite take_ge.
  - rewrite sortBy_Permutation. apply list_elem_of_In, filter_In.
    split; [by apply list_elem_of_In|done].
  - by rewrite sortBy_Permutation.
Qed.

Lemma getScore_4a p :
  getScore "4a" p =
    if String.eqb (toLowerCase (id p)) "4a" then 0
    else if startsWith (toLowerCase (id p)) "4a" then 1
    else if startsWith (toLowerCase (name p)) "4a" then 2
    else 3.
Proof. reflexivity. Qed.

(** The sample catalog: the order of the three problems is settled by score
    and id length, whatever the collation. *)
Lemma searchResults_4a_sample :
  map id (global (searchResults localeCompare "4a" "" "" [] catalog4a))
  = ["4A"; "44A"; "1504A"].
Proof. by vm_compute. Qed.

(** C2, as the code has it: for the query 4a without rating bounds, the id
    4A is the exact match (score 0); the ids 44A and 1504A both contain the
    query without starting with it, so both pass the text condition, neither
    is a prefix match, and each is ranked by its name (score 2) or not at all
    (score 3). In the global result 4A precedes 44A, 1504A and every problem
    ranked by name; a problem ranked by name precedes every problem of score 3;
    44A precedes 1504A unless the latter alone is ranked by name. Every
    matching problem of the catalog, 1504A included, is in the result when at
    most 50 problems match. *)
Theorem searchResults_query_4a myFolders catalog :
  let g := global (searchResults localeCompare "4a" "" "" myFolders catalog) in
  (∀ p, id p = "4A" → getScore "4a" p = 0)
  ∧ (∀ p, id p = "44A" ∨ id p = "1504A" →
       textMatch "4a" p = true
       ∧ startsWith (toLowerCase (id p)) "4a" = false
       ∧ getScore "4a" p = (if startsWith (toLowerCase (name p)) "4a" then 2 else 3)
       ∧ (isMatch "4a" "" "" p = true ↔
            match rating p with Some r => 0 ≤ r ≤ 10000 | None => True end))
  ∧ (∀ i j a b, g !! i = Some a → g !! j = Some b →
       (id a = "4A" → id b = "44A" ∨ id b = "1504A" ∨ getScore "4a" b = 2 →
          (i < j)%nat)
       ∧ (getScore "4a" a = 2 → getScore "4a" b = 3 → (i < j)%nat)
       ∧ (id a = "44A" → id b = "1504A" → getScore "4a" a ≤ getScore "4a" b →
          (i < j)%nat))
  ∧ (∀ p, p ∈ catalog → isMatch "4a" "" "" p = true →
       (length (List.filter (isMatch "4a" "" "") catalog) ≤ 50)%nat → p ∈ g).
Proof.
  intros g.
  assert (∀ p, id p = "4A" → getScore "4a" p = 0) as H4A.
  { intros p Hp. rewrite getScore_4a. by rewrite Hp. }
  assert (∀ p, id p = "44A" ∨ id p = "1504A" →
            getScore "4a" p = (if startsWith (toLowerCase (name p)) "4a" then 2 else 3))
    as Hsub.
  { intros p [Hp|Hp]; rewrite getScore_4a; by rewrite Hp. }
  split; [exact H4A|]. split; [|split].
  - intros p Hp. split; [|split; [|split; [by apply Hsub|]]].
    + unfold textMatch. by destruct Hp as [-> | ->].
    + by destruct Hp as [-> | ->].
    + assert (isMatch "4a" "" "" p = ratingMatch (Some 0) (Some 10000) p) as ->.
      { unfold isMatch, textMatch. by destruct Hp as [-> | ->]. }
      unfold ratingMatch. destruct (rating p) as [r|]; simpl; [|done].
      destruct (Z.eqb_spec r 0) as [->|Hr]; simpl; [split; [lia|done]|].
      by rewrite andb_true_iff, !Z.leb_le.
  - intros i j a b Ha Hb. repeat split.
    + intros Hia Hib. eapply global_strict_order; eauto.
      unfold rankedBefore. rewrite (H4A a Hia).
      destruct Hib as [Hib|[Hib|Hib]];
        [rewrite (Hsub b) by auto|rewrite (Hsub b) by auto|rewrite Hib];
        try destruct (startsWith (toLowerCase (name b)) "4a"); lia.
    + intros Hsa Hsb. eapply global_strict_order; eauto.
      unfold rankedBefore. lia.
    + intros Hia Hib Hle. eapply global_strict_order; eauto.
      unfold rankedBefore. rewrite Hia, Hib. simpl. lia.
  - intros p Hin Hm Hlen. by apply global_no_cap.
Qed.
End Search.

Section SearchExample.
Import Js Overlay Overlay_aux.
(** C2 as stated fails: problem 1504A is part of the result, and 44A is not
    a prefix match. *)
Lemma searchResults_4a_includes_1504A :
  map id (global (searchResults sameOrBefore "4a" "" "" [] catalog4a))
  = ["4A"; "44A"; "1504A"]
  ∧ includes (toLowerCase "1504A") (toLowerCase "4a") = true
  ∧ startsWith (toLowerCase "44A") (toLowerCase "4a") = false.
Proof. by vm_compute. Qed.
End SearchExample.

(** * Properties of the export *)

Section Verdict.
Import Js Overlay Overlay_aux.





Lemma mapChars_mapChars f g s :
  mapChars f (mapChars g s) = mapChars (λ c, f (g c)) s.
Proof. induction s as [|c s IH]; simpl; [done|]. by rewrite IH. Qed.


Lemma replaceChar_underscore v :
  replaceChar "_" " " v
  = mapChars (λ c, if Ascii.eqb c "_" then " "%char else c) v.
Proof.
  induction v as [|c v IH]; [done|].
  cbn [replaceChar mapChars]. rewrite IH. by destruct (Ascii.eqb c "_").
Qed.







(** The suffix is decided on the humanized text: a string that is no verdict
    of the remote enumeration, but whose humanized text is one of the four
    texts, receives the test number too. *)
Lemma formatVerdictDetailed_other_spelling :
  ("wrong_answer" ∉ namedVerdicts)
  ∧ humanize "wrong_answer" = "Wrong Answer"
  ∧ formatVerdictDetailed (Some "wrong_answer") 2 = "Wrong Answer on test 3"
  ∧ formatVerdictDetailed (Some "wrong_answer") 2 ≠ humanize "wrong_answer".
Proof.
  split; [|by vm_compute].
  unfold namedVerdicts. rewrite !elem_of_cons.
  intros [H|[H|[H|[H|[H|[H|H]]]]]]; try discriminate. by apply elem_of_nil in H.
Qed.
End Verdict.

Section Csv.
Import Js Overlay Overlay_aux.
Variable localDate : Z → option DateFields.

(** The four text cells of a row: all are wrapped in double quotes, and only
    the problem name has its double quotes doubled. *)
Lemma csvValues_text_cells row :
  csvValues localDate row !! 3%nat = Some (quoted (doubleQuotes (Db.name row)))
  ∧ csvValues localDate row !! 5%nat
    = Some (quoted (formatVerdictDetailed (Db.verdict row) (Db.passedTestCount row)))
  ∧ csvValues localDate row !! 6%nat = Some (quoted (Db.programmingLanguage row))
  ∧ csvValues localDate row !! 9%nat
    = Some (quoted (formatFullDate localDate (Db.creationTimeSeconds row))).
Proof. done. Qed.

(** The CSV text starts with the byte-order mark. *)
Lemma csvContent_bom data : startsWith (csvContent localDate data) bom = true.
Proof. reflexivity. Qed.

(** The CSV download of a non-empty store starts with the byte-order mark. *)
Lemma handleExportHistory_bom dbCount exportOnlyAC userHandle all :
  dbCount ≠ 0%nat →
  ∃ content fileName,
    handleExportHistory localDate dbCount csv exportOnlyAC userHandle all
    = DownloadCsv content fileName
    ∧ startsWith content bom = true.
Proof.
  intros Hn. unfold handleExportHistory.
  destruct (Nat.eqb_spec dbCount 0) as [|_]; [done|].
  eexists _, _. split; [done|]. apply csvContent_bom.
Qed.

(** Doubling leaves no single double quote: the example of a quoted word in a
    problem name. *)
Lemma doubleQuotes_example :
  quoted (doubleQuotes ("He said " +:+ quoted "hi"))
  = quoted ("He said " +:+ quoted (quoted "hi")).
Proof. reflexivity. Qed.

(** C3 at a record whose language contains double quotes: the name cell has
    its quotes doubled, the language cell is wrapped but its quotes are left
    single, so that the cell differs from the escaped one the claim asks for. *)
Theorem csvValues_language_not_escaped :
  csvValues localDate rowWithQuotes !! 3%nat
  = Some (quoted (doubleQuotes (Db.name rowWithQuotes)))
  ∧ csvValues localDate rowWithQuotes !! 6%nat = Some (quoted languageWithQuotes)
  ∧ quoted languageWithQuotes ≠ quoted (doubleQuotes languageWithQuotes)
  ∧ startsWith (csvContent localDate [rowWithQuotes]) bom = true.
Proof. repeat split. by vm_compute. Qed.
End Csv.

(** * Further properties of the submission store *)

Section Index.
Import Db Db_aux Extra_aux.
Implicit Types (store : gmap Z Submission).

Lemma entryBefore_trans : Transitive entryBefore.
Proof. unfold entryBefore. intros a b c ??. lia. Qed.

Lemma byCreation_le a b : byCreation a b ≤ 0 → entryBefore a b.
Proof.
  unfold byCreation, entryBefore.
  destruct (Z.eqb_spec (creationKey a.2) (creationKey b.2)); lia.
Qed.

Lemma byCreation_gt a b : 0 < byCreation a b → entryBefore b a.
Proof.
  unfold byCreation, entryBefore.
  destruct (Z.eqb_spec (creationKey a.2) (creationKey b.2)); lia.
Qed.

Lemma indexByCreation_Permutation store :
  indexByCreation store
  ≡ₚ (filter (λ e, is_Some (creationTimeSeconds e.2)) (map_to_list store)).*2.
Proof. unfold indexByCreation. by rewrite sortBy_Permutation. Qed.

Lemma elem_of_indexByCreation store r :
  r ∈ indexByCreation store ↔ (∃ k, store !! k = Some r) ∧ dated r.
Proof.
  rewrite indexByCreation_Permutation, list_elem_of_fmap. split.
  - intros ([k r'] & -> & H). apply list_elem_of_filter in H as [Hd H].
    split; [|done]. exists k. by apply elem_of_map_to_list in H.
  - intros [[k H] Hd]. exists (k, r). split; [done|].
    apply list_elem_of_filter. split; [done|]. by apply elem_of_map_to_list.
Qed.

Lemma length_indexByCreation store :
  (length (indexByCreation store) ≤ getSubmissionCount store)%nat.
Proof.
  unfold getSubmissionCount.
  rewrite indexByCreation_Permutation, length_fmap, <-length_map_to_list.
  apply length_filter.
Qed.

Lemma filter_all {A} (P : A → Prop) `{!∀ x, Decision (P x)} (l : list A) :
  Forall P l → filter P l = l.
Proof.
  induction 1 as [|x l Hx _ IH]; [done|]. by rewrite filter_cons_True, IH.
Qed.

Lemma length_indexByCreation_dated store :
  (∀ k r, store !! k = Some r → dated r) →
  length (indexByCreation store) = getSubmissionCount store.
Proof.
  intros Hd. unfold getSubmissionCount.
  rewrite indexByCreation_Permutation, length_fmap, <-length_map_to_list.
  f_equal. apply filter_all, Forall_forall. intros [k r] H.
  apply elem_of_map_to_list in H. by eapply Hd.
Qed.

Lemma StronglySorted_dated (l : list Submission) :
  StronglySorted (λ a b, creationKey a ≤ creationKey b) l → Forall dated l →
  StronglySorted createdNotAfter l.
Proof.
  induction 1 as [|x l Hl IH Hx]; intros Hd; [constructor|].
  apply Forall_cons in Hd as [[tx Hdx] Hd]. constructor; [by apply IH|].
  rewrite Forall_forall in Hx, Hd. apply Forall_forall. intros y Hy.
  destruct (Hd y Hy) as [ty Hdy]. exists tx, ty. split; [done|]. split; [done|].
  specialize (Hx y Hy). unfold creationKey in Hx. by rewrite Hdx, Hdy in Hx.
Qed.

Lemma indexByCreation_sorted store :
  StronglySorted createdNotAfter (indexByCreation store).
Proof.
  apply StronglySorted_dated.
  - unfold indexByCreation.
    eapply (StronglySorted_fmap snd entryBefore); [|].
    + intros a b. unfold entryBefore. simpl. lia.
    + apply sortBy_sorted;
        [apply entryBefore_trans|apply byCreation_le|apply byCreation_gt].
  - apply Forall_forall. intros r Hr. by apply elem_of_indexByCreation in Hr as [_ ?].
Qed.

(** X6: getAllSubmissions lists exactly the records of the store that have a
    creation time, each once, in ascending order of creationTimeSeconds; a
    record stored without creation time is counted but not listed, so the
    listing has at most as many records as the count, and exactly as many
    when every stored record has a creation time. *)
Theorem getAllSubmissions_sorted_listing store :
  getAllSubmissions store
  ≡ₚ (filter (λ e, is_Some (creationTimeSeconds e.2)) (map_to_list store)).*2
  ∧ (length (getAllSubmissions store) ≤ getSubmissionCount store)%nat
  ∧ ((∀ k r, get store k = Some r → dated r) →
     length (getAllSubmissions store) = getSubmissionCount store)
  ∧ (∀ r, r ∈ getAllSubmissions store ↔ (∃ k, get store k = Some r) ∧ dated r)
  ∧ (∀ i j a b, getAllSubmissions store !! i = Some a →
       getAllSubmissions store !! j = Some b → (i < j)%nat →
       createdNotAfter a b).
Proof.
  unfold getAllSubmissions, get.
  split; [apply indexByCreation_Permutation|].
  split; [apply length_indexByCreation|].
  split; [apply length_indexByCreation_dated|].
  split; [apply elem_of_indexByCreation|].
  intros i j a b Ha Hb Hij.
  pose proof (indexByCreation_sorted store) as Hs.
  rewrite <-(take_drop j (indexByCreation store)) in Hs.
  eapply (StronglySorted_app_1_elem_of _ _ _ a b) in Hs; [done| |].
  - apply elem_of_take. eauto.
  - apply list_elem_of_lookup. exists 0%nat. by rewrite lookup_drop, Nat.add_0_r.
Qed.

Lemma getAllSubmissions_sorted_listing_witness :
  getSubmissionCount storeWithUndated = 2%nat
  ∧ get storeWithUndated 1002 = Some storedUndated
  ∧ getAllSubmissions storeWithUndated = [storedWithCode]
  ∧ (length (getAllSubmissions storeWithUndated)
     ≤ getSubmissionCount storeWithUndated)%nat
  ∧ (storedUndated ∈ getAllSubmissions storeWithUndated ↔
       (∃ k, get storeWithUndated k = Some storedUndated) ∧ dated storedUndated).
Proof.
  split; [by vm_compute|]. split; [by vm_compute|]. split; [by vm_compute|].
  destruct (getAllSubmissions_sorted_listing storeWithUndated)
    as (_ & Hle & _ & Hin & _).
  split; [exact Hle|apply Hin].
Defined.


End Index.

Section Merge.
Import Db Db_aux Extra_aux.
Implicit Types (store : gmap Z Submission) (sub : RawSubmission) (k : Z).

Lemma writer_Some k sub p :
  writer k sub = Some p ↔ sub_id sub = IdNum k ∧ k ≠ 0 ∧ sub_problem sub = Some p.
Proof.
  unfold writer. destruct (sub_id sub) as [| |k']; try (split; [done|by intros [? _]]).
  destruct (Z.eqb_spec k' 0) as [->|Hk]; simpl.
  - split; [done|]. intros ([= <-] & ? & _). done.
  - case_bool_decide as Hkk.
    + subst. split; [done|]. by intros (_ & _ & ?).
    + split; [done|]. intros ([= ?] & _). done.
Qed.

Lemma lastWriter_None k batch :
  lastWriter k batch = None ↔ ∀ sub, sub ∈ batch → writer k sub = None.
Proof.
  induction batch as [|sub rest IH]; simpl.
  - split; [|done]. intros _ sub H. by apply elem_of_nil in H.
  - destruct (lastWriter k rest) as [w|] eqn:Hw.
    + split; [done|]. intros H. exfalso.
      assert (Some w = None) as Hc; [|done].
      apply IH. intros s Hs. apply H. by right.
    + destruct (writer k sub) as [p|] eqn:Hp; simpl.
      * split; [done|]. intros H. specialize (H sub). rewrite Hp in H.
        exfalso. assert (Some p = None) as Hc; [|done]. apply H. by left.
      * split; [|done]. intros _ s [->|Hs]%elem_of_cons; [done|].
        by apply IH.
Qed.

Lemma lastWriter_app_last k pre sub post p :
  writer k sub = Some p → (∀ s, s ∈ post → writer k s = None) →
  lastWriter k (pre ++ sub :: post) = Some (p, sub).
Proof.
  intros Hw Hpost. apply lastWriter_None in Hpost.
  induction pre as [|s pre IH]; simpl.
  - by rewrite Hpost, Hw.
  - by rewrite IH.
Qed.

Lemma saveSubmissions_has_key batch store k :
  is_Some (get (saveSubmissions batch store) k) ↔
    is_Some (get store k)
    ∨ ∃ sub, sub ∈ batch ∧ sub_id sub = IdNum k ∧ k ≠ 0 ∧ is_Some (sub_problem sub).
Proof.
  unfold get. rewrite saveSubmissions_lookup.
  destruct (lastWriter k batch) as [[p sub]|] eqn:Hw.
  - split; [|by eauto]. intros _. right.
    assert (∃ s p', s ∈ batch ∧ writer k s = Some p') as (s & p' & Hs & Hp).
    { destruct (decide (Exists (λ s, is_Some (writer k s)) batch)) as [He|Hn].
      - apply Exists_exists in He as (s & Hs & [p' Hp]). eauto.
      - exfalso. assert (lastWriter k batch = None) as Hc; [|congruence].
        apply lastWriter_None. intros s Hs.
        destruct (writer k s) eqn:E; [|done].
        exfalso. apply Hn, Exists_exists. exists s. rewrite E. eauto. }
    apply writer_Some in Hp as (? & ? & ?). exists s. eauto.
  - split; [by left|]. intros [H|(sub & Hin & Hid & Hk & [p Hp])]; [done|].
    exfalso. pose proof (proj1 (lastWriter_None k batch) Hw sub Hin) as Hn.
    assert (writer k sub = Some p) as Hs by (apply writer_Some; eauto).
    congruence.
Qed.

Lemma saveOne_size store sub :
  (size store ≤ size (saveOne store sub) ≤ S (size store))%nat.
Proof.
  unfold saveOne.
  destruct (idTruthy (sub_id sub) && bool_decide (is_Some (sub_problem sub)));
    [|lia].
  destruct (sub_id sub) as [| |k]; try lia.
  destruct (sub_problem sub) as [p|]; [|lia].
  unfold put, get. simpl.
  destruct (store !! k) as [r|] eqn:Hk.
  - rewrite map_size_insert_Some by eauto. lia.
  - rewrite map_size_insert_None by done. lia.
Qed.

Lemma saveSubmissions_size batch : ∀ store,
  (size store ≤ size (saveSubmissions batch store) ≤ size store + length batch)%nat.
Proof.
  unfold saveSubmissions.
  induction batch as [|sub rest IH]; intros store; simpl; [lia|].
  specialize (IH (saveOne store sub)). pose proof (saveOne_size store sub). lia.
Qed.

(** X1: a merge never removes a record: the keys of the store afterwards are
    the keys before together with the ids of the batch records that pass the
    guard (non-zero numeric id and a problem), and the record count grows by
    at most the length of the batch. *)
Theorem saveSubmissions_keys batch store :
  (∀ k, is_Some (get (saveSubmissions batch store) k) ↔
     is_Some (get store k)
     ∨ ∃ sub, sub ∈ batch ∧ sub_id sub = IdNum k ∧ k ≠ 0
              ∧ is_Some (sub_problem sub))
  ∧ (getSubmissionCount store ≤ getSubmissionCount (saveSubmissions batch store)
     ≤ getSubmissionCount store + length batch)%nat.
Proof.
  split; [intros k; apply saveSubmissions_has_key|apply saveSubmissions_size].
Qed.

(** X2: when a batch holds several records for one id, the last one that
    passes the guard decides every stored field except code, which is the
    code the store held under that id before the batch. *)
Theorem saveSubmissions_last_write_wins pre sub post store k p :
  sub_id sub = IdNum k → k ≠ 0 → sub_problem sub = Some p →
  (∀ s, s ∈ post → sub_id s = IdNum k → sub_problem s = None) →
  get (saveSubmissions (pre ++ sub :: post) store) k
  = Some (buildRecord k p sub (get store k)).
Proof.
  intros Hid Hk Hp Hpost. unfold get. rewrite saveSubmissions_lookup.
  rewrite (lastWriter_app_last k pre sub post p); [done| |].
  - apply writer_Some. eauto.
  - intros s Hs. destruct (writer k s) as [p'|] eqn:E; [|done].
    apply writer_Some in E as (Hsid & _ & Hsp).
    rewrite (Hpost s Hs Hsid) in Hsp. done.
Qed.

Lemma saveSubmissions_last_write_wins_witness :
  get (saveSubmissions ([resync (IdNum 1001) None]
                          ++ resync (IdNum 1001) (Some "print(1)")
                          :: [resync (IdNum 7) None]) storeWithCode) 1001
  = Some (buildRecord 1001 problem4A (resync (IdNum 1001) (Some "print(1)"))
            (get storeWithCode 1001)).
Proof.
  apply (saveSubmissions_last_write_wins [resync (IdNum 1001) None]
           (resync (IdNum 1001) (Some "print(1)")) [resync (IdNum 7) None]
           storeWithCode 1001 problem4A); [reflexivity|lia|reflexivity|].
  intros s Hs. apply list_elem_of_singleton in Hs as ->. simpl. discriminate.
Defined.

(** X3: if every record of the store is stored under its own id, the same
    holds after any merge. *)
Theorem saveSubmissions_keyed batch store :
  (∀ k r, get store k = Some r → id r = k) →
  ∀ k r, get (saveSubmissions batch store) k = Some r → id r = k.
Proof.
  unfold get. intros Hstore k r. rewrite saveSubmissions_lookup.
  destruct (lastWriter k batch) as [[p sub]|]; [|apply Hstore].
  by intros [= <-].
Qed.

Lemma saveSubmissions_keyed_witness :
  (∀ k r, get storeWithCode k = Some r → id r = k)
  ∧ (∀ k r, get (saveSubmissions [resync (IdNum 7) None] storeWithCode) k = Some r →
            id r = k).
Proof.
  assert (Hstore : ∀ k r, get storeWithCode k = Some r → id r = k).
  { unfold get, storeWithCode. intros k r H.
    apply lookup_singleton_Some in H as [<- <-]. reflexivity. }
  split; [exact Hstore|].
  exact (saveSubmissions_keyed [resync (IdNum 7) None] storeWithCode Hstore).
Defined.

(** X5: after clearDB the store is empty and its count is 0, and every
    record that a later merge stores has no code: clearing loses the sticky
    code. *)
Theorem clearDB_forgets batch store :
  getSubmissionCount (clearDB store) = 0%nat
  ∧ (∀ k, get (clearDB store) k = None)
  ∧ (∀ k r, get (saveSubmissions batch (clearDB store)) k = Some r → code r = None).
Proof.
  unfold getSubmissionCount, clearDB, get. split; [done|]. split; [done|].
  intros k r. rewrite saveSubmissions_lookup, lookup_empty.
  destruct (lastWriter k batch) as [[p sub]|]; [|done]. by intros [= <-].
Qed.
End Merge.

Section MergeCompose.
Import Db Db_aux Extra_aux.
Implicit Types (store : gmap Z Submission) (sub : RawSubmission) (k : Z).

Lemma lastWriter_Some k batch p sub :
  lastWriter k batch = Some (p, sub) → sub ∈ batch ∧ writer k sub = Some p.
Proof.
  induction batch as [|s rest IH]; simpl; [done|].
  destruct (lastWriter k rest) as [w|].
  - intros [= ->]. destruct (IH eq_refl) as [??]. split; [by right|done].
  - destruct (writer k s) as [p'|] eqn:E; simpl; [|done].
    intros [= -> ->]. split; [by left|done].
Qed.

(** X4: merging two batches one after the other gives the same store as
    merging their concatenation, and two batches that store no common id can
    be merged in either order. *)
Theorem saveSubmissions_compose b1 b2 store :
  saveSubmissions b2 (saveSubmissions b1 store) = saveSubmissions (b1 ++ b2) store
  ∧ ((∀ s1 s2 k, s1 ∈ b1 → s2 ∈ b2 → sub_id s1 = IdNum k → sub_id s2 = IdNum k →
        k = 0 ∨ sub_problem s1 = None ∨ sub_problem s2 = None) →
     saveSubmissions b1 (saveSubmissions b2 store)
     = saveSubmissions b2 (saveSubmissions b1 store)).
Proof.
  split; [by unfold saveSubmissions; rewrite fold_left_app|].
  intros Hdisj. apply map_eq. intros k.
  rewrite (saveSubmissions_lookup b1 (saveSubmissions b2 store)).
  rewrite (saveSubmissions_lookup b2 (saveSubmissions b1 store)).
  rewrite !saveSubmissions_lookup.
  destruct (lastWriter k b1) as [[p1 s1]|] eqn:H1;
    destruct (lastWriter k b2) as [[p2 s2]|] eqn:H2; try done.
  exfalso.
  apply lastWriter_Some in H1 as [Hin1 (Hid1 & Hk & Hp1)%writer_Some].
  apply lastWriter_Some in H2 as [Hin2 (Hid2 & _ & Hp2)%writer_Some].
  destruct (Hdisj s1 s2 k Hin1 Hin2 Hid1 Hid2) as [?|[?|?]]; congruence.
Qed.
End MergeCompose.

(** * Properties of the status and data synchronisation *)

Section UserStatus.
Import Js Overlay Overlay_aux Extra_aux.

Lemma recordSubmission_lookup m sub m' pid :
  recordSubmission m sub = Some m' →
  m' !! pid =
    if bool_decide (accepted pid sub) then Some "OK"
    else match m !! pid with
         | Some v => Some v
         | None => if bool_decide (statusKey sub = Some pid) then Some "WRONG" else None
         end.
Proof.
  unfold recordSubmission, accepted, statusKey.
  destruct (Db.sub_problem sub) as [p|]; [|done]. simpl.
  set (key := optNumToString (Db.rp_contestId p) +:+ Db.rp_index p).
  destruct (decide (key = pid)) as [<-|Hne].
  - case_bool_decide as Hok.
    + intros [= <-]. rewrite lookup_insert_eq.
      by rewrite bool_decide_eq_true_2.
    + rewrite (bool_decide_eq_false_2 (_ ∧ _)) by (by intros [_ ?]).
      case_bool_decide as Hs.
      * intros [= <-]. destruct Hs as [v Hv]. by rewrite Hv.
      * intros [= <-]. rewrite lookup_insert_eq.
        destruct (m !! key) eqn:E; [exfalso; eauto|].
        by rewrite bool_decide_eq_true_2.
  - rewrite (bool_decide_eq_false_2 (_ ∧ _)) by (intros [[= ?] _]; done).
    rewrite (bool_decide_eq_false_2 (Some key = Some pid)) by (intros [= ?]; done).
    repeat case_bool_decide; intros [= <-]; rewrite ?lookup_insert_ne by done;
      by destruct (m !! pid).
Qed.

Lemma recordSubmissions_total subs : ∀ m,
  Forall (λ sub, is_Some (Db.sub_problem sub)) subs →
  is_Some (recordSubmissions subs m).
Proof.
  induction subs as [|sub rest IH]; intros m Hall; simpl; [eauto|].
  apply Forall_cons in Hall as [[p Hp] Hrest].
  unfold recordSubmission. rewrite Hp.
  repeat case_bool_decide; by apply IH.
Qed.

Lemma recordSubmissions_lookup subs : ∀ m m' pid,
  recordSubmissions subs m = Some m' →
  m' !! pid =
    if bool_decide (Exists (accepted pid) subs) then Some "OK"
    else match m !! pid with
         | Some v => Some v
         | None =>
             if bool_decide (Exists (λ sub, statusKey sub = Some pid) subs)
             then Some "WRONG" else None
         end.
Proof.
  induction subs as [|sub rest IH]; intros m m' pid; simpl.
  - intros [= <-]. by destruct (m !! pid).
  - destruct (recordSubmission m sub) as [m1|] eqn:H1; [|done].
    intros Hrest. rewrite (IH _ _ pid Hrest).
    rewrite (recordSubmission_lookup _ _ _ pid H1).
    destruct (decide (Exists (accepted pid) rest)) as [He|Hn].
    + rewrite !bool_decide_eq_true_2; auto using Exists_cons_tl.
    + rewrite (bool_decide_eq_false_2 _ Hn).
      destruct (decide (accepted pid sub)) as [Ha|Hna].
      * rewrite (bool_decide_eq_true_2 _ Ha).
        by rewrite bool_decide_eq_true_2 by (by apply Exists_cons_hd).
      * rewrite (bool_decide_eq_false_2 _ Hna).
        rewrite (bool_decide_eq_false_2 (Exists (accepted pid) (sub :: rest)))
          by (intros [?|?]%Exists_cons; done).
        destruct (m !! pid) as [v|]; [done|].
        destruct (decide (statusKey sub = Some pid)) as [Hk|Hnk].
        -- rewrite (bool_decide_eq_true_2 _ Hk).
           by rewrite bool_decide_eq_true_2 by (by apply Exists_cons_hd).
        -- rewrite (bool_decide_eq_false_2 _ Hnk).
           destruct (decide (Exists (λ s, statusKey s = Some pid) rest)) as [Hr|Hnr].
           ++ by rewrite !bool_decide_eq_true_2 by auto using Exists_cons_tl.
           ++ rewrite (bool_decide_eq_false_2 _ Hnr).
              by rewrite bool_decide_eq_false_2 by (intros [?|?]%Exists_cons; done).
Qed.

Lemma recordSubmissions_throws subs : ∀ m,
  Exists (λ sub, Db.sub_problem sub = None) subs → recordSubmissions subs m = None.
Proof.
  induction subs as [|sub rest IH]; intros m; [by intros ?%Exists_nil|].
  intros [Hn|Hr]%Exists_cons; simpl.
  - unfold recordSubmission. by rewrite Hn.
  - destruct (recordSubmission m sub); [by apply IH|done].
Qed.

(** X13: after a successful status sync a problem is marked OK exactly when
    one of its submissions has verdict OK, WRONG exactly when it has
    submissions and none is OK, and is absent otherwise, whatever the order
    of the submissions; the persisted copy is the same map and one request
    was made. *)
Theorem fetchUserStatus_synced handle alertResult data subs rest st :
  handle ≠ "" → sp_status data = "OK" → sp_result data = Some subs →
  Forall (λ sub, is_Some (Db.sub_problem sub)) subs →
  ∃ m alert,
    fetchUserStatus handle alertResult (StatusResponds data :: rest) st
    = ({| userStatusMap := m; cf_user_status := Some m |}, alert, rest)
    ∧ ∀ pid,
        (m !! pid = Some "OK" ↔ Exists (accepted pid) subs)
        ∧ (m !! pid = Some "WRONG" ↔
             Exists (λ sub, statusKey sub = Some pid) subs
             ∧ ¬ Exists (accepted pid) subs)
        ∧ (m !! pid = None ↔ ¬ Exists (λ sub, statusKey sub = Some pid) subs).
Proof.
  intros Hh Hs Hr Hall.
  destruct (recordSubmissions_total subs ∅ Hall) as [m Hm].
  exists m, (if alertResult then Some "Status synced successfully!" else None).
  split.
  { unfold fetchUserStatus. destruct handle; [done|]. simpl.
    by rewrite Hs, Hr, Hm. }
  intros pid. rewrite (recordSubmissions_lookup _ _ _ pid Hm), lookup_empty.
  assert (Exists (accepted pid) subs → Exists (λ sub, statusKey sub = Some pid) subs)
    as Hsub.
  { intros H. eapply Exists_impl; [exact H|]. by intros sub [? _]. }
  destruct (decide (Exists (accepted pid) subs)) as [He|Hn].
  - rewrite (bool_decide_eq_true_2 _ He). intuition (try discriminate; eauto).
  - rewrite (bool_decide_eq_false_2 _ Hn).
    destruct (decide (Exists (λ sub, statusKey sub = Some pid) subs)) as [Hk|Hnk].
    + rewrite (bool_decide_eq_true_2 _ Hk). intuition (try discriminate; eauto).
    + rewrite (bool_decide_eq_false_2 _ Hnk). intuition (try discriminate; eauto).
Qed.

Lemma fetchUserStatus_synced_witness :
  ∃ m alert,
    fetchUserStatus "tourist" true
      (StatusResponds (mkStatusPayload "OK" (Some sampleStatusSubs) "") :: [])
      emptyStatusState
    = ({| userStatusMap := m; cf_user_status := Some m |}, alert, [])
    ∧ ∀ pid,
        (m !! pid = Some "OK" ↔ Exists (accepted pid) sampleStatusSubs)
        ∧ (m !! pid = Some "WRONG" ↔
             Exists (λ sub, statusKey sub = Some pid) sampleStatusSubs
             ∧ ¬ Exists (accepted pid) sampleStatusSubs)
        ∧ (m !! pid = None ↔
             ¬ Exists (λ sub, statusKey sub = Some pid) sampleStatusSubs).
Proof.
  apply (fetchUserStatus_synced "tourist" true
           (mkStatusPayload "OK" (Some sampleStatusSubs) "") sampleStatusSubs []
           emptyStatusState); [done|reflexivity|reflexivity|].
  repeat constructor; simpl; eauto.
Defined.

(** X14: a status sync that fails (rejected request, status other than OK,
    missing result, or a submission without problem) leaves the status map
    and its persisted copy unchanged after exactly one request; with an
    empty handle no request is made; no alert is shown unless alerts were
    asked for. *)
Theorem fetchUserStatus_failure handle alertResult o rest st :
  statusSyncFails o →
  fetchUserStatus "" alertResult (o :: rest) st = (st, None, o :: rest)
  ∧ (handle ≠ "" →
     ∃ alert, fetchUserStatus handle alertResult (o :: rest) st = (st, alert, rest)
              ∧ (alertResult = false → alert = None)).
Proof.
  intros Hf. split; [done|]. intros Hh.
  unfold fetchUserStatus. destruct handle; [done|]. simpl.
  destruct o as [|data]; simpl.
  { eexists. split; [done|]. by intros ->. }
  destruct (String.eqb_spec (sp_status data) "OK") as [Hs|Hs].
  - destruct Hf as [Hf|Hf]; [done|].
    destruct (sp_result data) as [subs|].
    + rewrite (recordSubmissions_throws subs ∅ Hf).
      eexists. split; [done|]. by intros ->.
    + eexists. split; [done|]. by intros ->.
  - eexists. split; [done|]. by intros ->.
Qed.

Lemma fetchUserStatus_failure_witness :
  let o := StatusResponds (mkStatusPayload "FAILED" None "handle: not found") in
  statusSyncFails o
  ∧ fetchUserStatus "" false (o :: []) emptyStatusState
    = (emptyStatusState, None, o :: [])
  ∧ fetchUserStatus "tourist" false (o :: []) emptyStatusState
    = (emptyStatusState, None, []).
Proof.
  intros o.
  assert (Hf : statusSyncFails o) by (simpl; left; discriminate).
  destruct (fetchUserStatus_failure "tourist" false o [] emptyStatusState Hf)
    as [Hnone Hsome].
  destruct (Hsome ltac:(discriminate)) as (alert & Hrun & Halert).
  rewrite (Halert eq_refl) in Hrun. auto.
Defined.
End UserStatus.

Section DataView.
Import Js Overlay Overlay_aux Extra_aux.

(** X15: if the shown count and preview agree with the store (count of
    records, the 50 most recent), they still agree after handleSyncData,
    successful or not, and after handleClearDb, confirmed or not; a sync
    that fails leaves the store unchanged. *)
Theorem dataView_in_sync userHandle o rest confirmed st :
  viewInSync st →
  viewInSync (handleSyncData userHandle (o :: rest) st).1.1
  ∧ viewInSync (handleClearDb confirmed st)
  ∧ (dataSyncFails o →
     submissions (handleSyncData userHandle (o :: rest) st).1.1 = submissions st).
Proof.
  intros Hv. split; [|split].
  - unfold handleSyncData. destruct (negb (strTruthy userHandle)); [done|].
    simpl. destruct o as [|data]; [done|].
    destruct (String.eqb (sp_status data) "OK"); [|done].
    by destruct (sp_result data).
  - unfold handleClearDb. by destruct confirmed.
  - intros Hf. unfold handleSyncData. destruct (negb (strTruthy userHandle)); [done|].
    simpl. destruct o as [|data]; [done|].
    destruct (String.eqb_spec (sp_status data) "OK") as [Hs|_]; [|done].
    destruct Hf as [Hf|Hf]; [done|]. by rewrite Hf.
Qed.

Lemma dataView_in_sync_witness :
  viewInSync sampleDataState
  ∧ dataSyncFails StatusRejects
  ∧ viewInSync (handleSyncData "tourist" (StatusRejects :: []) sampleDataState).1.1
  ∧ viewInSync (handleClearDb true sampleDataState)
  ∧ submissions (handleSyncData "tourist" (StatusRejects :: []) sampleDataState).1.1
    = submissions sampleDataState.
Proof.
  assert (Hv : viewInSync sampleDataState) by (split; by vm_compute).
  assert (Hf : dataSyncFails StatusRejects) by exact I.
  destruct (dataView_in_sync "tourist" StatusRejects [] true sampleDataState Hv)
    as (Hsync & Hclear & Hkeep).
  auto.
Defined.
End DataView.

(** * Properties of the custom folders *)

Section Folders.
Import Js Overlay Overlay_aux Extra_aux.
Implicit Types (myFolders : list Folder) (f : Folder) (p : Problem).

Lemma findIndex_Some {A} (g : A → bool) (l : list A) i :
  findIndex g l = Some i →
  ∃ x, l !! i = Some x ∧ g x = true ∧ ∀ j y, (j < i)%nat → l !! j = Some y → g y = false.
Proof.
  revert i. induction l as [|x l IH]; intros i; simpl; [done|].
  destruct (g x) eqn:Hx.
  - intros [= <-]. exists x. split; [done|]. split; [done|]. intros; lia.
  - destruct (findIndex g l) as [i'|]; [|done]. simpl. intros [= <-].
    destruct (IH i' eq_refl) as (y & Hy & Hgy & Hlt).
    exists y. split; [done|]. split; [done|].
    intros [|j] z Hj; simpl; [by intros [= <-]|].
    apply Hlt. lia.
Qed.

Lemma findIndex_None {A} (g : A → bool) (l : list A) :
  findIndex g l = None ↔ ∀ x, x ∈ l → g x = false.
Proof.
  induction l as [|x l IH]; simpl.
  - split; [|done]. intros _ x H. by apply elem_of_nil in H.
  - destruct (g x) eqn:Hx.
    + split; [done|]. intros H. rewrite H in Hx; [done|by left].
    + destruct (findIndex g l) as [i|]; simpl.
      * split; [done|]. intros H. exfalso.
        assert (Some i = None) as Hc; [|done]. apply IH. intros y Hy. apply H. by right.
      * split; [|done]. intros _ y [->|Hy]%elem_of_cons; [done|]. by apply IH.
Qed.

Lemma existsb_id_false p (ps : list Problem) :
  existsb (λ q, String.eqb (id q) (id p)) ps = false ↔ id p ∉ map id ps.
Proof.
  rewrite <-not_true_iff_false, existsb_exists, list_elem_of_In, in_map_iff.
  split; intros H.
  - intros (q & Hq & Hin). apply H. exists q. split; [done|]. by apply String.eqb_eq.
  - intros (q & Hin & Hq). apply H. exists q. split; [|done]. by apply String.eqb_eq.
Qed.

Lemma findIndex_insert fid myFolders : ∀ idx f g,
  findIndex (λ f, String.eqb (folderId f) fid) myFolders = Some idx →
  myFolders !! idx = Some f → folderId g = folderId f →
  findIndex (λ f, String.eqb (folderId f) fid) (<[idx := g]> myFolders) = Some idx.
Proof.
  induction myFolders as [|h l IH]; intros idx f g; simpl; [done|].
  destruct (String.eqb (folderId h) fid) eqn:Hh.
  - intros [= <-] [= <-] Hg. simpl. by rewrite Hg, Hh.
  - destruct (findIndex _ l) as [i|] eqn:Hi; [|done]. simpl.
    intros [= <-] Hl Hg. simpl in *. rewrite Hh. by rewrite (IH i f g eq_refl Hl Hg).
Qed.

Lemma filter_other_ids pid (ps : list Problem) :
  pid ∉ map id ps →
  List.filter (λ p, negb (String.eqb (id p) pid)) ps = ps.
Proof.
  induction ps as [|p ps IH]; simpl; [done|].
  intros Hn. apply not_elem_of_cons in Hn as [Hp Hps].
  destruct (String.eqb_spec (id p) pid) as [?|_]; [done|]. simpl. by rewrite IH.
Qed.

Lemma NoDup_filter_ids (g : Problem → bool) (ps : list Problem) :
  NoDup (map id ps) → NoDup (map id (List.filter g ps)).
Proof.
  induction ps as [|p ps IH]; simpl; [done|].
  intros [Hp Hps]%NoDup_cons. destruct (g p); simpl; [|by apply IH].
  apply NoDup_cons. split; [|by apply IH].
  intros Hin. apply Hp. apply list_elem_of_In, in_map_iff in Hin as (q & Hq & Hin).
  apply list_elem_of_In, in_map_iff. exists q. split; [done|].
  by apply filter_In in Hin as [? _].
Qed.

(** X25: adding a problem whose id is not yet in the first folder with the
    given id appends it to that folder, leaves the number of folders and
    every other folder unchanged, and adding the same problem again changes
    nothing and raises the already-in-folder alert. *)
Theorem addProblemToFolder_effect pr fid myFolders idx f :
  findIndex (λ f, String.eqb (folderId f) fid) myFolders = Some idx →
  myFolders !! idx = Some f →
  id pr ∉ map id (problems f) →
  let added := (addProblemToFolder (Some pr) fid myFolders).1 in
  added !! idx = Some (pushProblem pr f)
  ∧ length added = length myFolders
  ∧ (∀ j, j ≠ idx → added !! j = myFolders !! j)
  ∧ addProblemToFolder (Some pr) fid added = (added, Some "Problem already in folder.").
Proof.
  intros Hidx Hf Hnew added. subst added.
  assert (addProblemToFolder (Some pr) fid myFolders
          = (<[idx := pushProblem pr f]> myFolders, None)) as ->.
  { unfold addProblemToFolder. rewrite Hidx, Hf.
    by rewrite (proj2 (existsb_id_false pr (problems f)) Hnew). }
  cbn [fst]. pose proof (lookup_lt_Some _ _ _ Hf) as Hlt.
  split; [by apply list_lookup_insert_eq|].
  split; [by rewrite length_insert|].
  split; [by intros j Hj; apply list_lookup_insert_ne|].
  unfold addProblemToFolder.
  rewrite (findIndex_insert fid myFolders idx f (pushProblem pr f)) by done.
  rewrite list_lookup_insert_eq by done. simpl.
  rewrite existsb_app. simpl. rewrite String.eqb_refl. by rewrite orb_true_r.
Qed.

Lemma addProblemToFolder_effect_witness :
  let added := (addProblemToFolder (Some problem44A) "fav_def" favorites).1 in
  added !! 0%nat = Some (pushProblem problem44A
                           (mkFolder "fav_def" "My Favorites"
                              [unratedProblem] (Some true)))
  ∧ length added = length favorites
  ∧ (∀ j, j ≠ 0%nat → added !! j = favorites !! j)
  ∧ addProblemToFolder (Some problem44A) "fav_def" added
    = (added, Some "Problem already in folder.").
Proof.
  apply (addProblemToFolder_effect problem44A "fav_def" favorites 0
           (mkFolder "fav_def" "My Favorites" [unratedProblem] (Some true)));
    [reflexivity|reflexivity|].
  simpl. rewrite list_elem_of_singleton. discriminate.
Defined.

(** X26: deleting from a folder a problem that was just added to it (its id
    not being there before) gives back the folders exactly as they were. *)
Theorem deleteProblem_addProblemToFolder pr fid myFolders idx f :
  findIndex (λ f, String.eqb (folderId f) fid) myFolders = Some idx →
  myFolders !! idx = Some f →
  id pr ∉ map id (problems f) →
  deleteProblem fid (id pr) (addProblemToFolder (Some pr) fid myFolders).1 = myFolders.
Proof.
  intros Hidx Hf Hnew.
  assert (addProblemToFolder (Some pr) fid myFolders
          = (<[idx := pushProblem pr f]> myFolders, None)) as ->.
  { unfold addProblemToFolder. rewrite Hidx, Hf.
    by rewrite (proj2 (existsb_id_false pr (problems f)) Hnew). }
  cbn [fst]. pose proof (lookup_lt_Some _ _ _ Hf) as Hlt.
  unfold deleteProblem.
  rewrite (findIndex_insert fid myFolders idx f (pushProblem pr f)) by done.
  rewrite list_lookup_insert_eq by done. simpl.
  rewrite list_insert_insert_eq.
  rewrite List.filter_app, filter_other_ids by done. simpl.
  rewrite String.eqb_refl. simpl. rewrite app_nil_r.
  apply list_insert_id. rewrite Hf. by destruct f.
Qed.

Lemma deleteProblem_addProblemToFolder_witness :
  deleteProblem "fav_def" (id problem44A)
    (addProblemToFolder (Some problem44A) "fav_def" favorites).1 = favorites.
Proof.
  apply (deleteProblem_addProblemToFolder problem44A "fav_def" favorites 0
           (mkFolder "fav_def" "My Favorites" [unratedProblem] (Some true)));
    [reflexivity|reflexivity|].
  simpl. rewrite list_elem_of_singleton. discriminate.
Defined.

(** X27: deleteProblem changes only the first folder with the given id:
    afterwards that folder keeps its id and title and holds exactly its
    former problems with another id, every other folder is unchanged, and
    without such a folder nothing changes. *)
Theorem deleteProblem_effect fid problemId myFolders :
  match findIndex (λ f, String.eqb (folderId f) fid) myFolders with
  | None => deleteProblem fid problemId myFolders = myFolders
  | Some idx =>
      ∃ f f', myFolders !! idx = Some f
        ∧ deleteProblem fid problemId myFolders !! idx = Some f'
        ∧ folderId f' = folderId f ∧ title f' = title f
        ∧ (problemId ∉ map id (problems f'))
        ∧ (∀ p, p ∈ problems f' ↔ p ∈ problems f ∧ id p ≠ problemId)
        ∧ (∀ j, j ≠ idx →
             deleteProblem fid problemId myFolders !! j = myFolders !! j)
  end.
Proof.
  unfold deleteProblem.
  destruct (findIndex _ myFolders) as [idx|] eqn:Hidx; [|done].
  destruct (findIndex_Some _ _ _ Hidx) as (f & Hf & _ & _).
  rewrite Hf. pose proof (lookup_lt_Some _ _ _ Hf) as Hlt.
  eexists f, _. split; [done|].
  split; [by apply list_lookup_insert_eq|]. simpl.
  split; [done|]. split; [done|]. split; [|split].
  - intros Hin. apply list_elem_of_In, in_map_iff in Hin as (q & Hq & Hin).
    apply filter_In in Hin as [_ Hne]. apply negb_true_iff, String.eqb_neq in Hne. done.
  - intros p. rewrite !list_elem_of_In, filter_In, negb_true_iff, String.eqb_neq. done.
  - intros j Hj. by apply list_lookup_insert_ne.
Qed.

(** X28: if no folder holds two problems with the same id, this still holds
    after addProblemToFolder, deleteProblem, createFolder and deleteFolder. *)
Theorem folder_operations_keep_ids_unique myFolders problem fid problemId n now confirmed :
  Forall uniqueIds myFolders →
  Forall uniqueIds (addProblemToFolder problem fid myFolders).1
  ∧ Forall uniqueIds (deleteProblem fid problemId myFolders)
  ∧ Forall uniqueIds (createFolder n now myFolders)
  ∧ Forall uniqueIds (deleteFolder confirmed fid myFolders).
Proof.
  intros Hall. split; [|split; [|split]].
  - unfold addProblemToFolder. destruct problem as [pr|]; [|done].
    destruct (findIndex _ myFolders) as [idx|]; [|done].
    destruct (myFolders !! idx) as [f|] eqn:Hf; [|done].
    destruct (existsb _ (problems f)) eqn:He; [done|]. simpl.
    apply Forall_insert; [done|].
    unfold uniqueIds. simpl. rewrite map_app. simpl.
    apply NoDup_app. split; [|split].
    + by apply (Forall_lookup_1 _ _ _ _ Hall Hf).
    + intros x Hx ->%list_elem_of_singleton. by apply existsb_id_false in He.
    + apply NoDup_singleton.
  - unfold deleteProblem. destruct (findIndex _ myFolders) as [idx|]; [|done].
    destruct (myFolders !! idx) as [f|] eqn:Hf; [|done].
    apply Forall_insert; [done|]. unfold uniqueIds. simpl.
    apply NoDup_filter_ids. by apply (Forall_lookup_1 _ _ _ _ Hall Hf).
  - unfold createFolder. destruct n as [name|]; [|done].
    destruct (strTruthy name); [|done].
    apply Forall_app. split; [done|]. repeat constructor.
  - unfold deleteFolder. destruct confirmed; [|done].
    rewrite Forall_forall in Hall. apply Forall_forall. intros f Hf.
    apply Hall. apply list_elem_of_In, filter_In in Hf as [? _]. by apply list_elem_of_In.
Qed.

Lemma folder_operations_keep_ids_unique_witness :
  Forall uniqueIds (addProblemToFolder (Some problem44A) "fav_def" favorites).1
  ∧ Forall uniqueIds (deleteProblem "fav_def" "1A" favorites)
  ∧ Forall uniqueIds (createFolder (Some "Trees") 1700000000001 favorites)
  ∧ Forall uniqueIds (deleteFolder true "fav_def" favorites).
Proof.
  apply (folder_operations_keep_ids_unique favorites (Some problem44A) "fav_def"
           "1A" (Some "Trees") 1700000000001 true).
  repeat constructor; simpl; set_solver.
Defined.

(** X29: toggleFolder flips whether the given folder id is expanded and
    leaves the membership of every other id unchanged; toggling a collapsed
    folder twice restores the list. *)
Theorem toggleFolder_flips fid prev :
  (fid ∈ toggleFolder fid prev ↔ fid ∉ prev)
  ∧ (∀ i, i ≠ fid → i ∈ toggleFolder fid prev ↔ i ∈ prev)
  ∧ (fid ∉ prev → toggleFolder fid (toggleFolder fid prev) = prev).
Proof.
  assert (∀ l : list string, fid ∉ l →
            List.filter (λ i, negb (String.eqb i fid)) l = l) as Hkeep.
  { induction l as [|x l IH]; simpl; [done|].
    intros [Hx Hl]%not_elem_of_cons.
    destruct (String.eqb_spec x fid) as [?|_]; [done|]. simpl. by rewrite IH. }
  unfold toggleFolder. split; [|split].
  - case_bool_decide as Hin.
    + split; [|done]. intros H. apply list_elem_of_In, filter_In in H as [_ H].
      by rewrite String.eqb_refl in H.
    + split; [done|]. intros _. apply elem_of_app. right. by left.
  - intros i Hi. case_bool_decide as Hin.
    + rewrite !list_elem_of_In, filter_In, negb_true_iff, String.eqb_neq. tauto.
    + rewrite elem_of_app, list_elem_of_singleton. tauto.
  - intros Hn. rewrite (bool_decide_eq_false_2 _ Hn).
    rewrite bool_decide_eq_true_2 by (apply elem_of_app; right; by left).
    rewrite List.filter_app, Hkeep by done. simpl.
    by rewrite String.eqb_refl, app_nil_r.
Qed.

(** X30: creating a folder with a non-empty name and then deleting it by its
    generated id gives back the folders as they were, provided that id was
    not in use; a confirmed deleteFolder removes exactly the folders with
    the given id. *)
Theorem deleteFolder_createFolder name now myFolders :
  name ≠ "" →
  Forall (λ f, folderId f ≠ "f_" +:+ numToString now) myFolders →
  deleteFolder true ("f_" +:+ numToString now) (createFolder (Some name) now myFolders)
  = myFolders
  ∧ ∀ fid f, f ∈ deleteFolder true fid myFolders ↔ f ∈ myFolders ∧ folderId f ≠ fid.
Proof.
  intros Hname Hfresh. split.
  - unfold createFolder, deleteFolder. destruct name; [done|]. simpl.
    rewrite List.filter_app. simpl. rewrite String.eqb_refl. simpl. rewrite app_nil_r.
    induction Hfresh as [|f l Hf Hl IH]; simpl; [done|].
    destruct (String.eqb_spec (folderId f) ("f_" +:+ numToString now)); [done|].
    simpl. by rewrite IH.
  - intros fid f. unfold deleteFolder.
    rewrite !list_elem_of_In, filter_In, negb_true_iff, String.eqb_neq. done.
Qed.

Lemma deleteFolder_createFolder_witness :
  deleteFolder true ("f_" +:+ numToString 1700000000001)
    (createFolder (Some "Trees") 1700000000001 favorites) = favorites
  ∧ ∀ fid f, f ∈ deleteFolder true fid favorites ↔ f ∈ favorites ∧ folderId f ≠ fid.
Proof.
  apply (deleteFolder_createFolder "Trees" 1700000000001 favorites); [done|].
  repeat constructor; by vm_compute.
Defined.
End Folders.

(** * Properties of the system folders *)

Section SortingExt.
Import Js.
Context {A : Type} (cmp cmp' : A → A → Z).

Lemma insertBy_ext x l :
  (∀ y, y ∈ l → cmp x y = cmp' x y) → insertBy cmp x l = insertBy cmp' x l.
Proof.
  induction l as [|y l IH]; intros H; simpl; [done|].
  rewrite (H y) by (by left). destruct (cmp' x y <=? 0); [done|].
  f_equal. apply IH. intros z Hz. apply H. by right.
Qed.

Lemma sortBy_ext l :
  (∀ x y, x ∈ l → y ∈ l → cmp x y = cmp' x y) → sortBy cmp l = sortBy cmp' l.
Proof.
  induction l as [|x l IH]; intros H; simpl; [done|].
  rewrite IH by (intros; apply H; by right).
  apply insertBy_ext. intros y Hy. apply H; [by left|].
  right. by rewrite (sortBy_Permutation cmp' l) in Hy.
Qed.
End SortingExt.

Section Classify.
Import Js Overlay Overlay_aux Extra_aux.

Lemma classify_folders snapshot f :
  f ∈ classify snapshot ↔
  ∃ tag, tag ∈ CF_TAGS
    ∧ f = {| folderId := "sys_" +:+ tag; title := toUpperCase tag;
             problems := take 20 (sortBy byContestDesc
                                    (List.filter (hasTag tag) snapshot));
             isCustom := None |}.
Proof.
  unfold classify. rewrite list_elem_of_In, in_map_iff.
  split; intros (tag & H1 & H2); exists tag.
  - split; [by apply list_elem_of_In|done].
  - split; [done|by apply list_elem_of_In].
Qed.

(** X17: the refresh derives one system folder per registered tag, 17 in
    registry order with id sys_ followed by the tag and the upper-cased tag
    as title; each folder holds at most 20 problems, all of them problems of
    the snapshot that carry the folder's tag. *)
Theorem classify_folders_by_tag snapshot :
  map folderId (classify snapshot) = map (λ tag, "sys_" +:+ tag) CF_TAGS
  ∧ length (classify snapshot) = 17%nat
  ∧ ∀ f, f ∈ classify snapshot →
      (length (problems f) ≤ 20)%nat
      ∧ ∃ tag, tag ∈ CF_TAGS ∧ folderId f = "sys_" +:+ tag
          ∧ title f = toUpperCase tag
          ∧ ∀ p, p ∈ problems f →
              p ∈ snapshot ∧ ∃ ts, tags p = Some ts ∧ tag ∈ ts.
Proof.
  split; [by unfold classify; rewrite map_map|].
  split; [done|].
  intros f (tag & Htag & ->)%classify_folders. simpl.
  split; [rewrite length_take; lia|].
  exists tag. split; [done|]. split; [done|]. split; [done|].
  intros p Hp. apply subseteq_take in Hp.
  rewrite sortBy_Permutation in Hp.
  apply list_elem_of_In, filter_In in Hp as [Hin Ht].
  split; [by apply list_elem_of_In|].
  unfold hasTag in Ht. destruct (tags p) as [ts|]; [|done].
  exists ts. split; [done|]. by apply bool_decide_eq_true in Ht.
Qed.

(** X18: when every problem of the snapshot has a contest id, a system
    folder lists its problems by descending contest id, and a problem with
    the tag that is left out has a contest id no larger than any listed one. *)
Theorem classify_most_recent snapshot f tag :
  Forall (λ p, is_Some (contestId p)) snapshot →
  f ∈ classify snapshot → folderId f = "sys_" +:+ tag →
  (∀ i j a b, problems f !! i = Some a → problems f !! j = Some b → (i < j)%nat →
     contestOf b ≤ contestOf a)
  ∧ (∀ p q, p ∈ snapshot → hasTag tag p = true → p ∉ problems f →
       q ∈ problems f → contestOf p ≤ contestOf q).
Proof.
  intros Hall (tag' & Htag' & ->)%classify_folders Hid. simpl in *.
  apply (String.app_inj "sys_") in Hid as ->.
  set (tagged := List.filter (hasTag tag) snapshot).
  assert (sortBy byContestDesc tagged
          = sortBy (λ a b, contestOf b - contestOf a) tagged) as ->.
  { apply sortBy_ext. intros x y Hx Hy.
    assert (∀ z, z ∈ tagged → is_Some (contestId z)) as Hsome.
    { intros z Hz. rewrite Forall_forall in Hall. apply Hall.
      apply list_elem_of_In, filter_In in Hz as [? _]. by apply list_elem_of_In. }
    destruct (Hsome x Hx) as [cx Hcx], (Hsome y Hy) as [cy Hcy].
    unfold byContestDesc, contestOf. by rewrite Hcx, Hcy. }
  pose proof (sortBy_sorted (λ a b : Problem, contestOf b - contestOf a)
                (λ a b, contestOf b ≤ contestOf a)) as Hs.
  specialize (Hs ltac:(intros a b c ??; lia) ltac:(intros; simpl; lia)
                 ltac:(intros; simpl; lia) tagged).
  set (sorted := sortBy _ tagged) in *.
  rewrite <-(take_drop 20 sorted) in Hs.
  split.
  - intros i j a b Ha Hb Hij. apply StronglySorted_app_1_l in Hs.
    rewrite <-(take_drop j (take 20 sorted)) in Hs.
    eapply (StronglySorted_app_1_elem_of _ _ _ a b) in Hs; [done| |].
    + apply elem_of_take. eauto.
    + apply list_elem_of_lookup. exists 0%nat. by rewrite lookup_drop, Nat.add_0_r.
  - intros p q Hp Ht Hnot Hq.
    eapply (StronglySorted_app_1_elem_of _ _ _ q p) in Hs; [done|done|].
    assert (p ∈ sorted) as Hps.
    { unfold sorted. rewrite sortBy_Permutation.
      apply list_elem_of_In, filter_In. split; [by apply list_elem_of_In|done]. }
    rewrite <-(take_drop 20 sorted) in Hps.
    by apply elem_of_app in Hps as [?|?].
Qed.

Lemma classify_most_recent_witness :
  mathFolder ∈ classify mathCatalog
  ∧ length (problems mathFolder) = 20%nat
  ∧ (mathProblem 5 ∈ mathCatalog ∧ hasTag "math" (mathProblem 5) = true
     ∧ mathProblem 5 ∉ problems mathFolder)
  ∧ (∀ i j a b, problems mathFolder !! i = Some a →
       problems mathFolder !! j = Some b → (i < j)%nat →
       contestOf b ≤ contestOf a)
  ∧ (∀ p q, p ∈ mathCatalog → hasTag "math" p = true → p ∉ problems mathFolder →
       q ∈ problems mathFolder → contestOf p ≤ contestOf q)
  ∧ (∀ q, q ∈ problems mathFolder → contestOf (mathProblem 5) ≤ contestOf q).
Proof.
  assert (Hall : Forall (λ p, is_Some (contestId p)) mathCatalog).
  { apply Forall_forall. intros p Hp. apply list_elem_of_In, in_map_iff in Hp.
    destruct Hp as (n & <- & _). simpl. eauto. }
  assert (Hin : mathFolder ∈ classify mathCatalog).
  { apply list_elem_of_In. vm_compute. tauto. }
  assert (H5 : mathProblem 5 ∈ mathCatalog).
  { apply list_elem_of_In, in_map_iff. exists 5%nat. split; [done|].
    apply in_seq. lia. }
  assert (Hout : mathProblem 5 ∉ problems mathFolder).
  { intros H. apply list_elem_of_In, in_map_iff in H as (n & Hn & Hs).
    apply list_elem_of_In, elem_of_reverse, list_elem_of_In, in_seq in Hs.
    unfold mathProblem in Hn. injection Hn as _ Hz. lia. }
  destruct (classify_most_recent mathCatalog mathFolder "math" Hall Hin eq_refl)
    as [Hsorted Hleft].
  split; [exact Hin|]. split; [reflexivity|].
  split; [split; [exact H5|split; [reflexivity|exact Hout]]|].
  split; [exact Hsorted|]. split; [exact Hleft|].
  intros q Hq. exact (Hleft (mathProblem 5) q H5 eq_refl Hout Hq).
Defined.
End Classify.

Section RefreshSuccess.
Import Js Overlay Overlay_aux.

(** X16: a successful refresh replaces the catalog wholesale: the resulting
    state does not depend on the state before, the snapshot has one problem
    per remote entry in the same order, the system folders are those derived
    from it, and the persisted copies are that snapshot and those folders
    stamped with the time of the refresh. *)
Theorem fetchCFProblems_replaces now rest data remote st st' :
  status data = "OK" → result_problems data = Some remote →
  let after := (fetchCFProblems now (Responds data :: rest) st).1 in
  after = (fetchCFProblems now (Responds data :: rest) st').1
  ∧ (fetchCFProblems now (Responds data :: rest) st).2 = rest
  ∧ length (allProblemsCache after) = length remote
  ∧ map name (allProblemsCache after) = map r_name remote
  ∧ systemFolders after = classify (allProblemsCache after)
  ∧ storage after
    = {| cf_all_problems_cache := Some (allProblemsCache after);
         cf_cache_time := Some now;
         cf_sys_folders := Some (systemFolders after) |}
  ∧ isLoading after = false.
Proof.
  intros Hs Hr after. subst after.
  rewrite !(fetchCFProblems_success now rest _ data remote Hs Hr). simpl.
  split; [done|]. split; [done|]. split; [by rewrite length_map|].
  split; [by rewrite map_map|]. done.
Qed.

Lemma fetchCFProblems_replaces_witness :
  let data := mkPayload "OK" (Some [remote4A; remote1504A]) in
  let after := (fetchCFProblems 1700000000000 (Responds data :: []) staleState).1 in
  after = (fetchCFProblems 1700000000000 (Responds data :: []) emptyState).1
  ∧ (fetchCFProblems 1700000000000 (Responds data :: []) staleState).2 = []
  ∧ length (allProblemsCache after) = length [remote4A; remote1504A]
  ∧ map name (allProblemsCache after) = map r_name [remote4A; remote1504A]
  ∧ systemFolders after = classify (allProblemsCache after)
  ∧ storage after
    = {| cf_all_problems_cache := Some (allProblemsCache after);
         cf_cache_time := Some 1700000000000;
         cf_sys_folders := Some (systemFolders after) |}
  ∧ isLoading after = false.
Proof.
  apply (fetchCFProblems_replaces 1700000000000 []
           (mkPayload "OK" (Some [remote4A; remote1504A]))
           [remote4A; remote1504A] staleState emptyState); reflexivity.
Defined.
End RefreshSuccess.

(** * Further properties of the search *)

Section SearchLists.
Import Js Overlay Overlay_aux.
Variable localeCompare : string → string → Z.

Lemma fold_pushMatch_concat searchText minRating maxRating (myFolders : list Folder) :
  ∀ acc,
  fold_left (λ acc f,
    fold_left (pushMatch searchText minRating maxRating) (problems f) acc)
    myFolders acc
  = fold_left (pushMatch searchText minRating maxRating)
      (concat (map problems myFolders)) acc.
Proof.
  induction myFolders as [|f l IH]; intros acc; simpl; [done|].
  by rewrite fold_left_app, IH.
Qed.

Lemma existsb_id_iff (p : Problem) (l : list Problem) :
  existsb (λ x, String.eqb (id x) (id p)) l = true ↔ id p ∈ map id l.
Proof.
  rewrite existsb_exists, list_elem_of_In, in_map_iff.
  split; intros (x & H1 & H2); exists x.
  - split; [by apply String.eqb_eq|done].
  - split; [done|by apply String.eqb_eq].
Qed.

Lemma fold_pushMatch_spec searchText minRating maxRating ps : ∀ acc,
  let r := fold_left (pushMatch searchText minRating maxRating) ps acc in
  (NoDup (map id acc) → NoDup (map id r))
  ∧ (∀ p, p ∈ r → p ∈ acc ∨ (p ∈ ps ∧ isMatch searchText minRating maxRating p = true))
  ∧ (∀ p, p ∈ acc → p ∈ r)
  ∧ (∀ p, p ∈ ps → isMatch searchText minRating maxRating p = true → id p ∈ map id r).
Proof.
  induction ps as [|q ps IH]; intros acc; simpl.
  - split; [done|]. split; [by left|]. split; [done|].
    intros p H. by apply elem_of_nil in H.
  - destruct (IH (pushMatch searchText minRating maxRating acc q))
      as (IH1 & IH2 & IH3 & IH4).
    unfold pushMatch in *.
    destruct (isMatch searchText minRating maxRating q) eqn:Hm; simpl in *.
    + destruct (existsb _ acc) eqn:He; simpl in *.
      * split; [done|]. split; [|split; [done|]].
        -- intros p [?|[??]]%IH2; [by left|]. right. split; [by right|done].
        -- intros p [->|Hp]%elem_of_cons Hpm; [|by apply IH4].
           apply existsb_id_iff in He.
           apply list_elem_of_In, in_map_iff in He as (x & Hx & Hin).
           rewrite <-Hx. apply list_elem_of_In, in_map. apply list_elem_of_In, IH3.
           by apply list_elem_of_In.
      * split; [|split; [|split]].
        -- intros Hnd. apply IH1. rewrite map_app. simpl.
           apply NoDup_app. split; [done|]. split; [|apply NoDup_singleton].
           intros x Hx ->%list_elem_of_singleton.
           apply existsb_id_iff in Hx. congruence.
        -- intros p [[?| ->%list_elem_of_singleton]%elem_of_app|[??]]%IH2.
           ++ by left.
           ++ right. split; [by left|done].
           ++ right. split; [by right|done].
        -- intros p Hp. apply IH3, elem_of_app. by left.
        -- intros p [->|Hp]%elem_of_cons Hpm; [|by apply IH4].
           apply list_elem_of_In, in_map, list_elem_of_In, IH3, elem_of_app.
           right. by left.
    + split; [done|]. split; [|split; [done|]].
      * intros p [?|[??]]%IH2; [by left|]. right. split; [by right|done].
      * intros p [->|Hp]%elem_of_cons Hpm; [congruence|by apply IH4].
Qed.

(** X21: the list of own matches has no repeated id, consists of matching
    problems of the user's folders, and contains the id of every matching
    problem of those folders; with empty search text and empty bounds both
    result lists are empty. *)
Theorem searchResults_my searchText minRating maxRating myFolders catalog :
  let r := searchResults localeCompare searchText minRating maxRating myFolders catalog in
  (searchText = "" → minRating = "" → maxRating = "" → my r = [] ∧ global r = [])
  ∧ NoDup (map id (my r))
  ∧ (∀ p, p ∈ my r →
       isMatch searchText minRating maxRating p = true
       ∧ ∃ f, f ∈ myFolders ∧ p ∈ problems f)
  ∧ (searchText ≠ "" ∨ minRating ≠ "" ∨ maxRating ≠ "" →
     ∀ f p, f ∈ myFolders → p ∈ problems f →
       isMatch searchText minRating maxRating p = true → id p ∈ map id (my r)).
Proof.
  intros r. subst r. unfold searchResults.
  split; [by intros -> -> ->|].
  destruct (negb (strTruthy searchText) && negb (strTruthy minRating)
            && negb (strTruthy maxRating)) eqn:Hidle.
  { simpl. split; [constructor|]. split; [by intros p ?%elem_of_nil|].
    intros Hactive. exfalso.
    apply andb_true_iff in Hidle as [[H1 H2]%andb_true_iff H3].
    destruct searchText, minRating, maxRating; try done.
    by destruct Hactive as [?|[?|?]]. }
  simpl. unfold sortProblems. rewrite fold_pushMatch_concat.
  destruct (fold_pushMatch_spec searchText minRating maxRating
              (concat (map problems myFolders)) []) as (H1 & H2 & _ & H4).
  set (matches := fold_left _ _ []) in *.
  split; [|split].
  - rewrite sortBy_Permutation. apply H1. constructor.
  - intros p Hp. rewrite sortBy_Permutation in Hp.
    apply H2 in Hp as [Hp|[Hp Hm]]; [by apply elem_of_nil in Hp|].
    split; [done|]. apply list_elem_of_In, in_concat in Hp as (ps & Hps & Hp).
    apply in_map_iff in Hps as (f & <- & Hf). exists f.
    split; by apply list_elem_of_In.
  - intros _ f p Hf Hp Hm. rewrite sortBy_Permutation. apply H4; [|done].
    apply list_elem_of_In, in_concat. exists (problems f).
    split; [apply in_map|]; by apply list_elem_of_In.
Qed.

(** X22: the global list holds at most 50 problems, all of them matching
    problems of the catalog, and they are the best ranked: a matching
    catalog problem that is left out never ranks strictly before a listed
    one in score and id length, whatever the collation. *)
Theorem searchResults_global_best searchText minRating maxRating myFolders catalog :
  let g := global (searchResults localeCompare searchText minRating maxRating
                     myFolders catalog) in
  (length g ≤ 50)%nat
  ∧ (∀ p, p ∈ g → p ∈ catalog ∧ isMatch searchText minRating maxRating p = true)
  ∧ (searchText ≠ "" ∨ minRating ≠ "" ∨ maxRating ≠ "" →
     ∀ p q, p ∈ catalog → isMatch searchText minRating maxRating p = true →
       p ∉ g → q ∈ g → rankedBefore searchText q p).
Proof.
  intros g. subst g. unfold searchResults.
  destruct (negb (strTruthy searchText) && negb (strTruthy minRating)
            && negb (strTruthy maxRating)) eqn:Hidle.
  { simpl. split; [lia|]. split; [by intros p ?%elem_of_nil|].
    intros Hactive. exfalso.
    apply andb_true_iff in Hidle as [[H1 H2]%andb_true_iff H3].
    destruct searchText, minRating, maxRating; try done.
    by destruct Hactive as [?|[?|?]]. }
  simpl. unfold sortProblems.
  set (matches := List.filter _ catalog).
  split; [rewrite length_take; lia|]. split.
  - intros p Hp%subseteq_take. rewrite sortBy_Permutation in Hp.
    apply list_elem_of_In, filter_In in Hp as [??]. split; [by apply list_elem_of_In|done].
  - intros _ p q Hp Hm Hnot Hq.
    pose proof (sortBy_sorted (compareProblems localeCompare searchText)
                  (rankedBefore searchText) (rankedBefore_trans searchText)
                  (compareProblems_le localeCompare searchText)
                  (compareProblems_gt localeCompare searchText) matches) as Hs.
    set (sorted := sortBy _ matches) in *.
    rewrite <-(take_drop 50 sorted) in Hs.
    eapply (StronglySorted_app_1_elem_of _ _ _ q p) in Hs; [done|done|].
    assert (p ∈ sorted) as Hps.
    { unfold sorted. rewrite sortBy_Permutation.
      apply list_elem_of_In, filter_In. split; [by apply list_elem_of_In|done]. }
    rewrite <-(take_drop 50 sorted) in Hps.
    by apply elem_of_app in Hps as [?|?].
Qed.
End SearchLists.

Section Bounds.
Import Js Overlay Overlay_aux.

Lemma digitValue_pretty_N_char x :
  (x < 10)%N → digitValue 10 (pretty_N_char x) = Some (Z.of_N x).
Proof.
  intros Hx.
  assert (x = 0 ∨ x = 1 ∨ x = 2 ∨ x = 3 ∨ x = 4 ∨ x = 5 ∨ x = 6 ∨ x = 7
          ∨ x = 8 ∨ x = 9)%N as H by lia.
  destruct H as [->|[->|[->|[->|[->|[->|[->|[->|[->| ->]]]]]]]]]; reflexivity.
Qed.

Lemma parseDigits_pretty_N_go x : ∀ s,
  (0 < x)%N →
  parseDigits 10 (pretty_N_go x s) None = parseDigits 10 s (Some (Z.of_N x)).
Proof.
  induction (N.lt_wf_0 x) as [x _ IH]; intros s Hx.
  rewrite pretty_N_go_step by done.
  destruct (decide (x `div` 10 = 0)%N) as [Hz|Hnz].
  - rewrite Hz, pretty_N_go_0. simpl.
    rewrite digitValue_pretty_N_char by (apply N.mod_lt; lia). simpl.
    f_equal. f_equal. pose proof (N.div_mod x 10 ltac:(done)) as H.
    rewrite Hz, N.mul_0_r, N.add_0_l in H. by rewrite <-H.
  - rewrite IH; [|apply N.div_lt; lia|by apply N.neq_0_lt_0]. simpl.
    rewrite digitValue_pretty_N_char by (apply N.mod_lt; lia). simpl.
    f_equal. f_equal. rewrite (N.div_mod x 10 ltac:(done)) at 3.
    rewrite N2Z.inj_add, N2Z.inj_mul. done.
Qed.

Lemma parseInt_digits d :
  allChars isDigit d = true → parseInt d = Z.mul 1 <$> parseDigits 10 d None.
Proof.
  destruct d as [|a d]; [done|]. simpl. intros [Ha Hd]%andb_true_iff.
  destruct a as [[] [] [] [] [] [] [] []]; try discriminate Ha; try reflexivity.
  destruct d as [|b r]; [reflexivity|]. simpl in Hd.
  apply andb_true_iff in Hd as [Hb _].
  destruct b as [[] [] [] [] [] [] [] []]; try discriminate Hb; reflexivity.
Qed.

Lemma parseInt_minus_digits d :
  allChars isDigit d = true →
  parseInt ("-" +:+ d) = Z.mul (-1) <$> parseDigits 10 d None.
Proof.
  intros Hd. rewrite append_cons, append_nil_l.
  destruct d as [|a d]; [done|]. simpl in Hd.
  apply andb_true_iff in Hd as [Ha Hd].
  destruct a as [[] [] [] [] [] [] [] []]; try discriminate Ha; try reflexivity.
  destruct d as [|b r]; [reflexivity|]. simpl in Hd.
  apply andb_true_iff in Hd as [Hb _].
  destruct b as [[] [] [] [] [] [] [] []]; try discriminate Hb; reflexivity.
Qed.

Lemma parseInt_numToString n : parseInt (numToString n) = Some n.
Proof.
  unfold numToString, pretty, pretty_Z. destruct n as [|p|p].
  - reflexivity.
  - unfold pretty, pretty_positive, pretty, pretty_N.
    case_decide as Hp; [done|].
    rewrite parseInt_digits by (by apply pretty_N_go_digits).
    by rewrite parseDigits_pretty_N_go by lia.
  - unfold pretty, pretty_positive, pretty, pretty_N.
    case_decide as Hp; [done|].
    rewrite parseInt_minus_digits by (by apply pretty_N_go_digits).
    by rewrite parseDigits_pretty_N_go by lia.
Qed.

(** X20: a rating bound typed as the decimal text of a safe integer resolves
    to that integer; an empty bound resolves to 0 for the minimum and to
    10000 for the maximum. *)
Theorem resolve_bounds n :
  isSafeInteger n = true →
  resolveMin (numToString n) = Some n
  ∧ resolveMax (numToString n) = Some n
  ∧ resolveMin "" = Some 0
  ∧ resolveMax "" = Some 10000.
Proof.
  intros _.
  assert (strTruthy (numToString n) = true) as Ht.
  { destruct (numToString_shape n) as (d & _ & Hne & ->).
    destruct (n <? 0); [done|]. by destruct d. }
  unfold resolveMin, resolveMax. rewrite Ht, parseInt_numToString. done.
Qed.

Lemma resolve_bounds_witness :
  isSafeInteger 1500 = true
  ∧ numToString 1500 = "1500"
  ∧ resolveMin "1500" = Some 1500
  ∧ resolveMax "1500" = Some 1500
  ∧ resolveMin "" = Some 0
  ∧ resolveMax "" = Some 10000.
Proof.
  split; [reflexivity|]. split; [reflexivity|].
  apply (resolve_bounds 1500). reflexivity.
Defined.
End Bounds.

(** * Further properties of the random pick *)

Section Href.
Import Js Overlay Overlay_aux Extra_aux.

Lemma spanDigits_app d : ∀ i,
  allChars isDigit d = true → noLeadingDigit i = true →
  spanDigits (d +:+ i) = (d, i).
Proof.
  induction d as [|c d IH]; intros i Hd Hi.
  - rewrite append_nil_l. destruct i as [|a i]; [done|]. simpl in *.
    by apply negb_true_iff in Hi as ->.
  - rewrite append_cons. simpl in *. apply andb_true_iff in Hd as [-> Hd].
    by rewrite IH.
Qed.

(** X24: for a catalog problem built from a remote entry whose contest id is
    a non-negative safe integer and whose index starts with no digit, the
    random pick navigates to the problem page of exactly that contest id and
    index when the index contains no line terminator (LF, CR, U+2028,
    U+2029), and does not navigate when it contains one. *)
Theorem problemHref_normalize r n :
  r_contestId r = Some n → 0 ≤ n → isSafeInteger n = true →
  noLeadingDigit (r_index r) = true →
  problemHref (id (normalize r))
  = if noLineTerminator (r_index r)
    then Some ("https://codeforces.com/problemset/problem/" +:+ numToString n
               +:+ "/" +:+ r_index r)
    else None.
Proof.
  intros Hc Hn _ Hi. unfold normalize, problemHref. simpl. rewrite Hc. simpl.
  destruct (numToString_shape n) as (d & Hd & Hne & E).
  rewrite (proj2 (Z.ltb_ge n 0) Hn) in E. rewrite E.
  rewrite spanDigits_app by done.
  destruct d as [|c d]; [done|]. simpl strTruthy. by rewrite andb_true_l.
Qed.

Lemma problemHref_normalize_witness :
  r_contestId remote1504A = Some 1504 ∧ isSafeInteger 1504 = true
  ∧ noLeadingDigit (r_index remote1504A) = true
  ∧ noLineTerminator (r_index remote1504A) = true
  ∧ noLineTerminator (r_index remoteTwoLines) = false
  ∧ problemHref (id (normalize remote1504A))
    = Some "https://codeforces.com/problemset/problem/1504/A"
  ∧ problemHref (id (normalize remoteTwoLines)) = None.
Proof.
  split; [reflexivity|]. split; [reflexivity|]. split; [reflexivity|].
  split; [reflexivity|]. split; [reflexivity|]. split.
  - apply (problemHref_normalize remote1504A 1504); [reflexivity|lia|reflexivity..].
  - apply (problemHref_normalize remoteTwoLines 1504); [reflexivity|lia|reflexivity..].
Defined.
End Href.

Section Pick.
Import Js Overlay Overlay_aux Extra_aux.

(** X23: the random pick reports an empty index only for an empty catalog
    and an empty pool only when no catalog problem passes the filter;
    otherwise the picked problem is a catalog problem that satisfies the
    search predicate and, when statuses are shown, is not marked OK. *)
Theorem handleRandomPick_sound num den showStatus userStatus
    searchText minRating maxRating cache :
  (num < den)%nat →
  match handleRandomPick num den showStatus userStatus searchText minRating
          maxRating cache with
  | IndexEmpty => cache = []
  | NoUnsolved =>
      cache ≠ []
      ∧ ∀ p, p ∈ cache →
          poolFilter showStatus userStatus searchText minRating maxRating p = false
  | Picked p href =>
      p ∈ cache
      ∧ isMatch searchText minRating maxRating p = true
      ∧ (showStatus = true → userStatus !! id p ≠ Some "OK")
      ∧ href = problemHref (id p)
  end.
Proof.
  intros Hnd.
  pose proof (handleRandomPick_outcomes num den showStatus userStatus searchText
                minRating maxRating cache Hnd) as H.
  simpl in H.
  destruct (handleRandomPick _ _ _ _ _ _ _ _) as [| |p href]; [done| |].
  - destruct H as [Hne Hpool]. split; [done|]. intros p Hp.
    destruct (poolFilter _ _ _ _ _ p) eqn:Hf; [|done].
    assert (In p (List.filter (poolFilter showStatus userStatus searchText
                                 minRating maxRating) cache)) as Hin
      by (apply filter_In; split; [by apply list_elem_of_In|done]).
    by rewrite Hpool in Hin.
  - destruct H as [Hp ->].
    apply list_elem_of_In, filter_In in Hp as [Hin Hf].
    rewrite poolFilter_unfold in Hf. apply andb_true_iff in Hf as [Hm Hs].
    split; [by apply list_elem_of_In|]. split; [done|]. split; [|done].
    intros ->. simpl in Hs. by apply negb_true_iff, bool_decide_eq_false in Hs.
Qed.

Lemma handleRandomPick_sound_witness :
  match handleRandomPick 1 2 true ∅ "4a" "" "" catalog4a with
  | IndexEmpty => catalog4a = []
  | NoUnsolved =>
      catalog4a ≠ []
      ∧ ∀ p, p ∈ catalog4a → poolFilter true ∅ "4a" "" "" p = false
  | Picked p href =>
      p ∈ catalog4a
      ∧ isMatch "4a" "" "" p = true
      ∧ (true = true → (∅ : gmap string string) !! id p ≠ Some "OK")
      ∧ href = problemHref (id p)
  end.
Proof.
  apply (handleRandomPick_sound 1 2 true ∅ "4a" "" "" catalog4a). lia.
Defined.
End Pick.

(** * Further properties of the export *)

Section Memory.
Import Js Overlay.

(** X12: formatMemoryKB is never negative, is 0 below 512 bytes, is the
    number of KB nearest to a non-negative byte count with halves rounded up
    (within 512 bytes of it), and grows with the byte count. *)
Theorem formatMemoryKB_nearest bytes :
  0 ≤ formatMemoryKB bytes
  ∧ (bytes < 512 → formatMemoryKB bytes = 0)
  ∧ (0 ≤ bytes → bytes - 512 < 1024 * formatMemoryKB bytes ≤ bytes + 512)
  ∧ (∀ bytes', bytes ≤ bytes' → formatMemoryKB bytes ≤ formatMemoryKB bytes').
Proof.
  unfold formatMemoryKB. split; [lia|]. split; [|split].
  - intros H. assert ((bytes + 512) / 1024 ≤ 0); [|lia].
    apply Z.lt_succ_r, Z.div_lt_upper_bound; lia.
  - intros H. pose proof (Z.div_pos (bytes + 512) 1024).
    pose proof (Z.mul_div_le (bytes + 512) 1024).
    pose proof (Z.mul_succ_div_gt (bytes + 512) 1024). lia.
  - intros bytes' H. pose proof (Z.div_le_mono (bytes + 512) (bytes' + 512) 1024). lia.
Qed.
End Memory.

Section DateText.
Import Js Overlay Overlay_aux Extra_aux.
Variable localDate : Z → option DateFields.

Lemma length_append s t :
  String.length (s +:+ t) = (String.length s + String.length t)%nat.
Proof.
  induction s as [|c s IH]; [done|]. rewrite append_cons. simpl. by rewrite IH.
Qed.

Lemma holdsOnRange_sound f lo hi n :
  holdsOnRange f lo hi = true → lo ≤ n < hi → f n = true.
Proof.
  unfold holdsOnRange. rewrite forallb_forall. intros H Hn.
  specialize (H (Z.to_nat (n - lo))). rewrite Z2Nat.id in H by lia.
  replace (lo + (n - lo)) with n in H by lia. apply H.
  apply in_seq. lia.
Qed.

Lemma pad_two n :
  0 ≤ n ≤ 99 →
  String.length (pad (Some n)) = 2%nat ∧ allChars isDigit (pad (Some n)) = true.
Proof.
  intros Hn.
  assert (holdsOnRange (λ n, (String.length (pad (Some n)) =? 2)%nat
                             && allChars isDigit (pad (Some n))) 0 100 = true) as H
    by (by vm_compute).
  apply (holdsOnRange_sound _ _ _ n) in H; [|lia].
  apply andb_true_iff in H as [H1%Nat.eqb_eq H2]. done.
Qed.

Lemma year_four n :
  1000 ≤ n ≤ 9999 →
  String.length (numToString n) = 4%nat ∧ allChars isDigit (numToString n) = true.
Proof.
  intros Hn.
  assert (holdsOnRange (λ n, (String.length (numToString n) =? 4)%nat
                             && allChars isDigit (numToString n)) 1000 10000 = true) as H
    by (by vm_compute).
  apply (holdsOnRange_sound _ _ _ n) in H; [|lia].
  apply andb_true_iff in H as [H1%Nat.eqb_eq H2]. done.
Qed.

(** X9: for a valid date whose year has four digits, formatFullDate gives a
    text of 19 characters of the form YYYY-MM-DD HH:MM:SS, every part after
    the year being two digits and the month being counted from 1. *)
Theorem formatFullDate_shape unix d :
  localDate (unix * 1000) = Some d →
  1000 ≤ getFullYear d ≤ 9999 → 0 ≤ getMonth d ≤ 11 → 1 ≤ getDate d ≤ 31 →
  0 ≤ getHours d ≤ 23 → 0 ≤ getMinutes d ≤ 59 → 0 ≤ getSeconds d ≤ 59 →
  ∃ y mo dd h mi s,
    formatFullDate localDate (Some unix)
    = y +:+ "-" +:+ mo +:+ "-" +:+ dd +:+ " " +:+ h +:+ ":" +:+ mi +:+ ":" +:+ s
    ∧ y = numToString (getFullYear d) ∧ String.length y = 4%nat
    ∧ mo = pad (Some (getMonth d + 1))
    ∧ Forall (λ t, String.length t = 2%nat ∧ allChars isDigit t = true)
        [mo; dd; h; mi; s]
    ∧ String.length (formatFullDate localDate (Some unix)) = 19%nat.
Proof.
  intros Hvalid Hy Hmo Hd Hh Hmi Hs.
  assert (formatFullDate localDate (Some unix)
          = numToString (getFullYear d) +:+ "-" +:+ pad (Some (getMonth d + 1))
            +:+ "-" +:+ pad (Some (getDate d)) +:+ " " +:+ pad (Some (getHours d))
            +:+ ":" +:+ pad (Some (getMinutes d)) +:+ ":" +:+ pad (Some (getSeconds d)))
    as Htext.
  { unfold formatFullDate, newDate. simpl. change MILLISECONDS_TO_SECONDS with 1000.
    by rewrite Hvalid. }
  exists (numToString (getFullYear d)), (pad (Some (getMonth d + 1))),
    (pad (Some (getDate d))), (pad (Some (getHours d))),
    (pad (Some (getMinutes d))), (pad (Some (getSeconds d))).
  destruct (year_four _ Hy) as [Ly _].
  destruct (pad_two (getMonth d + 1)) as [L1 D1]; [lia|].
  destruct (pad_two (getDate d)) as [L2 D2]; [lia|].
  destruct (pad_two (getHours d)) as [L3 D3]; [lia|].
  destruct (pad_two (getMinutes d)) as [L4 D4]; [lia|].
  destruct (pad_two (getSeconds d)) as [L5 D5]; [lia|].
  split; [done|]. split; [done|]. split; [done|]. split; [done|].
  split; [repeat constructor; done|].
  rewrite Htext, !length_append, Ly, L1, L2, L3, L4, L5. done.
Qed.
End DateText.

Section DateTextSample.
Import Js Overlay Overlay_aux Extra_aux.

Lemma formatFullDate_shape_witness :
  let d := mkDateFields 2023 10 14 22 13 20 in
  sampleDate (1700000000 * 1000) = Some d
  ∧ ∃ y mo dd h mi s,
      formatFullDate sampleDate (Some 1700000000)
      = y +:+ "-" +:+ mo +:+ "-" +:+ dd +:+ " " +:+ h +:+ ":" +:+ mi +:+ ":" +:+ s
      ∧ y = numToString (getFullYear d) ∧ String.length y = 4%nat
      ∧ mo = pad (Some (getMonth d + 1))
      ∧ Forall (λ t, String.length t = 2%nat ∧ allChars isDigit t = true)
          [mo; dd; h; mi; s]
      ∧ String.length (formatFullDate sampleDate (Some 1700000000)) = 19%nat.
Proof.
  split; [reflexivity|].
  apply (formatFullDate_shape sampleDate 1700000000 (mkDateFields 2023 10 14 22 13 20));
    [reflexivity|simpl; lia..].
Defined.
End DateTextSample.

Section CellText.
Import Js Overlay Overlay_aux Extra_aux.
Variable localDate : Z → option DateFields.

Lemma allChars_append f s t :
  allChars f (s +:+ t) = allChars f s && allChars f t.
Proof.
  induction s as [|c s IH]; [done|]. rewrite append_cons. simpl.
  by rewrite IH, andb_assoc.
Qed.

Lemma allChars_impl (f g : ascii → bool) s :
  (∀ c, f c = true → g c = true) → allChars f s = true → allChars g s = true.
Proof.
  intros H. induction s as [|c s IH]; simpl; [done|].
  rewrite !andb_true_iff. intros [??]. auto.
Qed.

Lemma allChars_hasChar f c s :
  allChars f s = true → f c = false → hasChar c s = false.
Proof.
  intros Hs Hc. induction s as [|a s IH]; simpl in *; [done|].
  apply andb_true_iff in Hs as [Ha Hs]. rewrite (IH Hs), orb_false_r.
  destruct (Ascii.eqb_spec a c) as [->|]; [congruence|done].
Qed.

Lemma hasChar_append c s t : hasChar c (s +:+ t) = hasChar c s || hasChar c t.
Proof.
  induction s as [|a s IH]; [done|]. rewrite append_cons. simpl.
  by rewrite IH, orb_assoc.
Qed.

Lemma numToString_dateChars n : allChars dateChar (numToString n) = true.
Proof.
  destruct (numToString_shape n) as (d & Hd & _ & ->).
  assert (allChars dateChar d = true) as Hdd.
  { eapply allChars_impl; [|exact Hd]. intros c Hc. unfold dateChar. by rewrite Hc. }
  destruct (n <? 0); [|done]. rewrite append_cons, append_nil_l. simpl. done.
Qed.

Lemma numToString_plainChars n : allChars plainChar (numToString n) = true.
Proof.
  destruct (numToString_shape n) as (d & Hd & _ & ->).
  assert (allChars plainChar d = true) as Hdd.
  { eapply allChars_impl; [|exact Hd]. intros c Hc. unfold plainChar.
    rewrite Hc. by rewrite !orb_true_r. }
  destruct (n <? 0); [|done]. rewrite append_cons, append_nil_l. simpl. done.
Qed.

Lemma nanToString_dateChars v : allChars dateChar (nanToString v) = true.
Proof. destruct v as [n|]; [apply numToString_dateChars|done]. Qed.

Lemma pad_dateChars v : allChars dateChar (pad v) = true.
Proof.
  unfold pad. pose proof (nanToString_dateChars v) as H.
  destruct (nanToString v) as [|a [|b s]]; simpl in *; done.
Qed.

(** X10: whatever the creation time is (a number or missing) and whatever the
    host's calendar makes of it (a valid date or an invalid one, whose getters
    return NaN), the text of formatFullDate consists of digits, hyphens,
    colons, a space and the letters of NaN only, so the date cell of the CSV
    never contains a double quote, a comma or a line break; for a missing
    creation time and for an invalid date the text is made of NaN parts. *)
Theorem formatFullDate_chars unix :
  allChars dateChar (formatFullDate localDate unix) = true
  ∧ hasChar dquote (formatFullDate localDate unix) = false
  ∧ hasChar "," (formatFullDate localDate unix) = false
  ∧ hasChar "010" (formatFullDate localDate unix) = false
  ∧ formatFullDate localDate None = "NaN-NaN-NaN NaN:NaN:NaN"
  ∧ (∀ u, localDate (u * 1000) = None →
       formatFullDate localDate (Some u) = "NaN-NaN-NaN NaN:NaN:NaN").
Proof.
  assert (allChars dateChar (formatFullDate localDate unix) = true) as H.
  { unfold formatFullDate. rewrite !allChars_append.
    by rewrite nanToString_dateChars, !pad_dateChars. }
  split; [done|].
  split; [by eapply allChars_hasChar|]. split; [by eapply allChars_hasChar|].
  split; [by eapply allChars_hasChar|]. split; [done|].
  intros u Hu. unfold formatFullDate, newDate. simpl.
  change MILLISECONDS_TO_SECONDS with 1000. by rewrite Hu.
Qed.

Lemma charToLower_plain a :
  charToLower a = a ∨ (plainChar a = true ∧ plainChar (charToLower a) = true).
Proof. destruct a as [[] [] [] [] [] [] [] []]; vm_compute; auto. Qed.

Lemma charToUpper_plain a :
  charToUpper a = a ∨ (plainChar a = true ∧ plainChar (charToUpper a) = true).
Proof. destruct a as [[] [] [] [] [] [] [] []]; vm_compute; auto. Qed.

Lemma eqb_plain a b c :
  plainChar c = false → plainChar a = true → plainChar b = true →
  Ascii.eqb a c = Ascii.eqb b c.
Proof.
  intros Hc Ha Hb.
  destruct (Ascii.eqb_spec a c) as [->|_]; [congruence|].
  destruct (Ascii.eqb_spec b c) as [->|_]; [congruence|done].
Qed.

Lemma hasChar_mapChars f c s :
  (∀ a, Ascii.eqb (f a) c = Ascii.eqb a c) →
  hasChar c (mapChars f s) = hasChar c s.
Proof.
  intros H. induction s as [|a s IH]; simpl; [done|]. by rewrite H, IH.
Qed.

Lemma hasChar_capitalizeWords c s : ∀ b,
  plainChar c = false → hasChar c (capitalizeWords b s) = hasChar c s.
Proof.
  induction s as [|a s IH]; intros b Hc; simpl; [done|].
  rewrite IH by done. f_equal.
  destruct (isWordChar a && negb b); [|done].
  destruct (charToUpper_plain a) as [->|[??]]; [done|]. by apply eqb_plain.
Qed.

Lemma hasChar_humanize c v :
  plainChar c = false → hasChar c (humanize v) = hasChar c v.
Proof.
  intros Hc. unfold humanize, toLowerCase.
  rewrite hasChar_capitalizeWords, replaceChar_underscore, mapChars_mapChars by done.
  apply hasChar_mapChars. intros a.
  destruct (Ascii.eqb_spec a "_") as [->|_].
  - by apply eqb_plain.
  - destruct (charToLower_plain a) as [->|[??]]; [done|]. by apply eqb_plain.
Qed.

(** X11: for a verdict that is ASCII text and a count of passed tests that is
    a safe integer, a character other than a letter, digit, space, underscore
    or hyphen occurs in the text of formatVerdictDetailed exactly when it
    occurs in the verdict itself, and never for a missing verdict: the
    verdict cell of a verdict without double quote, comma or line break has
    none either. *)
Theorem formatVerdictDetailed_chars c v passedCount :
  asciiText v = true → isSafeInteger passedCount = true → plainChar c = false →
  hasChar c (formatVerdictDetailed (Some v) passedCount) = hasChar c v
  ∧ hasChar c (formatVerdictDetailed None passedCount) = false.
Proof.
  intros _ _ Hc. split; [|done]. unfold formatVerdictDetailed.
  destruct (strTruthy v) eqn:Hv; [|by destruct v]. simpl negb. cbv iota.
  assert (∀ t, allChars plainChar t = true → hasChar c t = false) as Hplain
    by (intros t Ht; by eapply allChars_hasChar).
  destruct (String.eqb_spec v "OK") as [->|_]; [by rewrite !Hplain|].
  destruct (String.eqb_spec v "COMPILATION_ERROR") as [->|_]; [by rewrite !Hplain|].
  case_bool_decide; [|by apply hasChar_humanize].
  rewrite !hasChar_append, hasChar_humanize by done.
  rewrite (Hplain " on test ") by done.
  rewrite (Hplain _ (numToString_plainChars _)). by rewrite !orb_false_r.
Qed.

Lemma formatVerdictDetailed_chars_witness :
  let v := "WRONG_ANSWER" +:+ quoted "x" in
  asciiText v = true ∧ isSafeInteger 2 = true ∧ plainChar dquote = false
  ∧ hasChar dquote v = true
  ∧ hasChar dquote (formatVerdictDetailed (Some v) 2) = hasChar dquote v
  ∧ hasChar dquote (formatVerdictDetailed None 2) = false.
Proof.
  intros v. split; [reflexivity|]. split; [reflexivity|]. split; [reflexivity|].
  split; [reflexivity|].
  apply (formatVerdictDetailed_chars dquote v 2); reflexivity.
Defined.
End CellText.

Section ExportOrder.
Import Js Overlay Overlay_aux Extra_aux.
Variable localDate : Z → option DateFields.

Lemma StronglySorted_flip_reverse {A} (R : relation A) l :
  StronglySorted R l → StronglySorted (flip R) (reverse l).
Proof.
  induction 1 as [|x l Hl IH Hx]; [constructor|].
  rewrite reverse_cons.
  apply StronglySorted_app_2; [|done|repeat constructor].
  intros a b Ha Hb. apply list_elem_of_singleton in Hb as ->.
  rewrite Forall_forall in Hx. apply Hx. by rewrite <-elem_of_reverse.
Qed.

Lemma StronglySorted_filter {A} (R : relation A) (P : A → Prop)
    `{!∀ x, Decision (P x)} l :
  StronglySorted R l → StronglySorted R (filter P l).
Proof.
  induction 1 as [|x l Hl IH Hx]; [constructor|].
  rewrite filter_cons. case_decide; [|done].
  constructor; [done|]. rewrite Forall_forall in Hx. apply Forall_forall.
  intros y [_ Hy]%list_elem_of_filter. by apply Hx.
Qed.

Lemma StronglySorted_lookup {A} (R : relation A) l i j a b :
  StronglySorted R l → l !! i = Some a → l !! j = Some b → (i < j)%nat → R a b.
Proof.
  intros Hs Ha Hb Hij. rewrite <-(take_drop j l) in Hs.
  eapply (StronglySorted_app_1_elem_of R); [exact Hs| |].
  - apply elem_of_take. eauto.
  - apply list_elem_of_lookup. exists 0%nat. by rewrite lookup_drop, Nat.add_0_r.
Qed.

(** X8: with a non-zero count the export, CSV or JSON, lists the stored
    submissions that have a creation time, newest first: all of them, or
    exactly those with verdict OK when only accepted ones are asked for. A
    record stored without creation time is not exported; when every stored
    record has one, the export of all has as many rows as the count. *)
Theorem handleExportHistory_newest_first dbCount exportFormat exportOnlyAC
    userHandle store :
  dbCount ≠ 0%nat →
  ∃ data,
    handleExportHistory localDate dbCount exportFormat exportOnlyAC userHandle
      (Db.getAllSubmissions store)
    = match exportFormat with
      | json => DownloadJson data ("cf_submissions_" +:+ userHandle +:+ ".json")
      | csv => DownloadCsv (csvContent localDate data)
                 ("cf_submissions_" +:+ userHandle +:+ ".csv")
      end
    ∧ (∀ r, r ∈ data ↔
         (∃ k, Db.get store k = Some r) ∧ dated r
         ∧ (exportOnlyAC = true → Db.verdict r = Some "OK"))
    ∧ (∀ i j a b, data !! i = Some a → data !! j = Some b → (i < j)%nat →
         createdNotAfter b a)
    ∧ (length data ≤ Db.getSubmissionCount store)%nat
    ∧ (exportOnlyAC = false →
       (∀ k r, Db.get store k = Some r → dated r) →
       length data = Db.getSubmissionCount store).
Proof.
  intros Hn.
  exists (rev (Db.querySubmissions exportOnlyAC (Db.getAllSubmissions store))).
  split.
  { unfold handleExportHistory. destruct (Nat.eqb_spec dbCount 0); [done|].
    by destruct exportFormat. }
  rewrite rev_alt. change (rev_append ?l []) with (reverse l).
  unfold Db.getAllSubmissions, Db.get.
  split; [|split; [|split]].
  - intros r. rewrite elem_of_reverse. unfold Db.querySubmissions.
    destruct exportOnlyAC; simpl.
    + rewrite list_elem_of_filter, elem_of_indexByCreation.
      split; [intros [? [??]]; split; [done|split; [done|by intros _]]|].
      intros [? [? H]]. split; [by apply H|done].
    + rewrite elem_of_indexByCreation.
      split; [by intros [??]; split; [|split]|by intros [? [? _]]].
  - intros i j a b Ha Hb Hij.
    eapply (StronglySorted_lookup (flip createdNotAfter));
      [|exact Ha|exact Hb|done].
    apply StronglySorted_flip_reverse. unfold Db.querySubmissions.
    pose proof (indexByCreation_sorted store) as Hs.
    destruct exportOnlyAC; simpl; [by apply StronglySorted_filter|done].
  - rewrite length_reverse. unfold Db.querySubmissions.
    pose proof (length_indexByCreation store) as Hle.
    destruct exportOnlyAC; simpl; [|done].
    etrans; [apply length_filter|done].
  - intros -> Hd. unfold Db.querySubmissions. cbn [negb].
    by rewrite length_reverse, length_indexByCreation_dated.
Qed.
End ExportOrder.

Section ExportOrderSample.
Import Js Overlay Overlay_aux Extra_aux.

Lemma handleExportHistory_newest_first_witness :
  Db.getSubmissionCount storeWithUndated = 2%nat
  ∧ ∃ data,
      handleExportHistory sampleDate 2 csv false "tourist"
        (Db.getAllSubmissions storeWithUndated)
      = DownloadCsv (csvContent sampleDate data)
          ("cf_submissions_" +:+ "tourist" +:+ ".csv")
      ∧ (∀ r, r ∈ data ↔
           (∃ k, Db.get storeWithUndated k = Some r) ∧ dated r
           ∧ (false = true → Db.verdict r = Some "OK"))
      ∧ (∀ i j a b, data !! i = Some a → data !! j = Some b → (i < j)%nat →
           createdNotAfter b a)
      ∧ (length data ≤ Db.getSubmissionCount storeWithUndated)%nat
      ∧ (false = false →
         (∀ k r, Db.get storeWithUndated k = Some r → dated r) →
         length data = Db.getSubmissionCount storeWithUndated).
Proof.
  split; [by vm_compute|].
  apply (handleExportHistory_newest_first sampleDate 2 csv false "tourist"
           storeWithUndated). lia.
Defined.
End ExportOrderSample.

(** * Properties of the contest schedule *)

Section Contests.
Import Js Overlay Overlay_aux Extra_aux.

Lemma ascending_sorted (l : list Contest) :
  StronglySorted (λ a b, startTimeSeconds a ≤ startTimeSeconds b)
    (sortBy (λ a b, startTimeSeconds a - startTimeSeconds b) l).
Proof.
  apply sortBy_sorted; [intros a b c ??; lia|intros; simpl; lia|intros; simpl; lia].
Qed.

Lemma descending_sorted (l : list Contest) :
  StronglySorted (λ a b, startTimeSeconds b ≤ startTimeSeconds a)
    (sortBy (λ a b, startTimeSeconds b - startTimeSeconds a) l).
Proof.
  apply sortBy_sorted; [intros a b c ??; lia|intros; simpl; lia|intros; simpl; lia].
Qed.

(** X19: after a successful contest request the upcoming list holds exactly
    the contests of phase BEFORE, earliest start first, and the history list
    holds at most 50 contests of phase FINISHED, latest start first, none of
    the left-out finished contests starting later than a listed one; a
    contest is marked participated exactly when its id is in the rating
    history, which is empty when the rating request is rejected; both lists
    are persisted as shown. *)
Theorem fetchContests_lists handle dataContests result rating st :
  body_status dataContests = "OK" → body_result dataContests = Some result →
  let after := (fetchContests handle (Replied dataContests) rating st).1 in
  let allContests := map (toContest (participatedIds handle rating)) result in
  (∀ c, c ∈ upcomingContests after ↔ c ∈ allContests ∧ phase c = "BEFORE")
  ∧ (∀ i j a b, upcomingContests after !! i = Some a →
       upcomingContests after !! j = Some b → (i < j)%nat →
       startTimeSeconds a ≤ startTimeSeconds b)
  ∧ (length (historyContests after) ≤ 50)%nat
  ∧ (∀ c, c ∈ historyContests after → c ∈ allContests ∧ phase c = "FINISHED")
  ∧ (∀ i j a b, historyContests after !! i = Some a →
       historyContests after !! j = Some b → (i < j)%nat →
       startTimeSeconds b ≤ startTimeSeconds a)
  ∧ (∀ c d, c ∈ allContests → phase c = "FINISHED" → c ∉ historyContests after →
       d ∈ historyContests after → startTimeSeconds c ≤ startTimeSeconds d)
  ∧ (∀ c, c ∈ allContests →
       participated c = Some true ↔
       contest_id c ∈ participatedIds handle rating)
  ∧ participatedIds handle Rejected = []
  ∧ cf_upcoming_contests after = Some (upcomingContests after)
  ∧ cf_history_contests after = Some (historyContests after).
Proof.
  intros Hs Hr after allContests. subst after.
  unfold fetchContests. rewrite Hs, Hr. simpl. fold allContests.
  unfold upcomingOf, historyOf.
  set (before := List.filter (λ c, String.eqb (phase c) "BEFORE") allContests).
  set (finished := List.filter (λ c, String.eqb (phase c) "FINISHED") allContests).
  pose proof (descending_sorted finished) as Hd.
  set (sortedF := sortBy _ finished) in *.
  assert (∀ c, c ∈ sortedF ↔ c ∈ allContests ∧ phase c = "FINISHED") as HF.
  { intros c. unfold sortedF. rewrite sortBy_Permutation. unfold finished.
    by rewrite !list_elem_of_In, filter_In, String.eqb_eq. }
  split; [|split; [|split; [|split; [|split; [|split; [|split; [|split]]]]]]].
  - intros c. rewrite sortBy_Permutation. unfold before.
    by rewrite !list_elem_of_In, filter_In, String.eqb_eq.
  - intros i j a b Ha Hb Hij.
    by eapply (StronglySorted_lookup _ _ i j a b (ascending_sorted before)).
  - rewrite length_take. lia.
  - intros c Hc%subseteq_take. by apply HF.
  - intros i j a b Ha Hb Hij.
    eapply (StronglySorted_lookup (λ a b, startTimeSeconds b ≤ startTimeSeconds a)
              (take 50 sortedF) i j a b); [|done..].
    rewrite <-(take_drop 50 sortedF) in Hd. by apply StronglySorted_app_1_l in Hd.
  - intros c d Hc Hp Hnot Hdin.
    rewrite <-(take_drop 50 sortedF) in Hd.
    eapply (StronglySorted_app_1_elem_of _ _ _ d c) in Hd; [done|done|].
    assert (c ∈ sortedF) as Hcs by (by apply HF).
    rewrite <-(take_drop 50 sortedF) in Hcs.
    by apply elem_of_app in Hcs as [?|?].
  - intros c Hc. unfold allContests in Hc.
    apply list_elem_of_In, in_map_iff in Hc as (rc & <- & _). simpl.
    split; [intros [= H]; by apply bool_decide_eq_true in H|].
    intros H. f_equal. by apply bool_decide_eq_true.
  - unfold participatedIds. by destruct (strTruthy handle).
  - done.
Qed.

Lemma fetchContests_lists_witness :
  let after :=
    (fetchContests "tourist" (Replied (mkBody "OK" (Some sampleContests)))
       Rejected emptyContestState).1 in
  let allContests :=
    map (toContest (participatedIds "tourist" Rejected)) sampleContests in
  (∀ c, c ∈ upcomingContests after ↔ c ∈ allContests ∧ phase c = "BEFORE")
  ∧ (∀ i j a b, upcomingContests after !! i = Some a →
       upcomingContests after !! j = Some b → (i < j)%nat →
       startTimeSeconds a ≤ startTimeSeconds b)
  ∧ (length (historyContests after) ≤ 50)%nat
  ∧ (∀ c, c ∈ historyContests after → c ∈ allContests ∧ phase c = "FINISHED")
  ∧ (∀ i j a b, historyContests after !! i = Some a →
       historyContests after !! j = Some b → (i < j)%nat →
       startTimeSeconds b ≤ startTimeSeconds a)
  ∧ (∀ c d, c ∈ allContests → phase c = "FINISHED" → c ∉ historyContests after →
       d ∈ historyContests after → startTimeSeconds c ≤ startTimeSeconds d)
  ∧ (∀ c, c ∈ allContests →
       participated c = Some true ↔
       contest_id c ∈ participatedIds "tourist" Rejected)
  ∧ participatedIds "tourist" (@Rejected Z) = []
  ∧ cf_upcoming_contests after = Some (upcomingContests after)
  ∧ cf_history_contests after = Some (historyContests after).
Proof.
  apply (fetchContests_lists "tourist" (mkBody "OK" (Some sampleContests))
           sampleContests Rejected emptyContestState); reflexivity.
Defined.
End Contests.
